(** * NgramCharacterModel (Code/ngram.py): shallow embedding and properties

    Python strings are modelled as [String.string] over ASCII, Python lists
    as Rocq lists with Python's indexing rules, [defaultdict]s and
    [Counter]s as stdpp [gmap]s.  The queries of the class run in a state
    and exception monad [M] over the model object, so that the one
    mutation a [defaultdict] read can perform (inserting a missing key) is
    visible.  Character probabilities are computed exactly in [Q];
    word scores, which use [math.log] and [math.exp], in [R]. *)

From Stdlib Require Import String Ascii ZArith QArith Qreals Reals Lra Lia.
From stdpp Require Import base gmap list strings.

Open Scope Z_scope.

(** ** Python helpers *)

Inductive exc := IndexError | ZeroDivisionError | ValueError.

Definition str_len (s : string) : Z := Z.of_nat (String.length s).

(** Normalisation of a Python index for a sequence of length [len]:
    negative indices count from the end. *)
Definition py_index (len : nat) (i : Z) : exc + nat :=
  let i' := if i <? 0 then Z.of_nat len + i else i in
  if (0 <=? i') && (i' <? Z.of_nat len) then inr (Z.to_nat i') else inl IndexError.

(** Slice bound normalisation: negative bounds count from the end, then
    bounds are clamped to [0, len]. *)
Definition py_bound (len : Z) (i : Z) : Z :=
  if i <? 0 then Z.max 0 (len + i) else Z.min i len.

(** [s[a:b]] *)
Definition py_slice (s : string) (a b : Z) : string :=
  let L := str_len s in
  let a' := py_bound L a in
  let b' := py_bound L b in
  String.substring (Z.to_nat a') (Z.to_nat (b' - a')) s.

(** [s[a:]] *)
Definition py_slice_from (s : string) (a : Z) : string :=
  py_slice s a (str_len s).

(** [s[i]] on a string *)
Definition py_str_index (s : string) (i : Z) : exc + ascii :=
  match py_index (String.length s) i with
  | inl e => inl e
  | inr k => match String.get k s with Some c => inr c | None => inl IndexError end
  end.

(** [range(a, b)] and [range(a, b, -1)] *)
Definition py_range (a b : Z) : list Z :=
  map (fun k => a + Z.of_nat k) (seq 0 (Z.to_nat (b - a))).

Definition py_range_down (a b : Z) : list Z :=
  map (fun k => a - Z.of_nat k) (seq 0 (Z.to_nat (a - b))).

(** [l[:k]] on a list *)
Definition py_take {A} (l : list A) (k : Z) : list A :=
  take (Z.to_nat (py_bound (Z.of_nat (length l)) k)) l.

(** ASCII [str.lower] and [str.startswith]. *)
Definition ascii_lower (c : ascii) : ascii :=
  let k := nat_of_ascii c in
  if (65 <=? k)%nat && (k <=? 90)%nat then ascii_of_nat (k + 32) else c.

Definition py_lower (s : string) : string :=
  string_of_list_ascii (map ascii_lower (list_ascii_of_string s)).

Definition startswith (s prefix : string) : bool := String.prefix prefix s.

(** ** The model object *)

Record model := mk_model {
  n : Z;
  counts : list (gmap string (gmap ascii Z));
  contexts : list (gmap string Z);
  backoff_weights : list (gmap string Q);
  words : list string;
  word_freq : gmap string Z
}.

Definition set_counts (s : model) c :=
  mk_model (n s) c (contexts s) (backoff_weights s) (words s) (word_freq s).
Definition set_contexts (s : model) c :=
  mk_model (n s) (counts s) c (backoff_weights s) (words s) (word_freq s).
Definition set_backoff_weights (s : model) b :=
  mk_model (n s) (counts s) (contexts s) b (words s) (word_freq s).

(** ** State and exception monad over the model object *)

Definition M (A : Type) : Type := model -> exc + (A * model).

Global Instance M_ret : MRet M := fun A x s => inr (x, s).
Global Instance M_bind : MBind M := fun A B f c s =>
  match c s with
  | inl e => inl e
  | inr (x, s') => f x s'
  end.

Definition raise {A} (e : exc) : M A := fun _ => inl e.
Definition get_self : M model := fun s => inr (s, s).
Definition put_self (s : model) : M unit := fun _ => inr (tt, s).
Definition lift {A} (r : exc + A) : M A :=
  match r with inl e => raise e | inr x => mret x end.
Definition lift_opt {A} (o : option A) : M A :=
  match o with None => raise IndexError | Some x => mret x end.

Fixpoint forM {A} (l : list A) (f : A -> M unit) : M unit :=
  match l with
  | [] => mret tt
  | x :: l' => f x ;; forM l' f
  end.

Fixpoint mapM {A B} (f : A -> M B) (l : list A) : M (list B) :=
  match l with
  | [] => mret []
  | x :: l' => y ← f x; ys ← mapM f l'; mret (y :: ys)
  end.

(** [self.counts[j]] and [self.contexts[j]]: list indexing. *)
Definition counts_at (j : Z) : M (gmap string (gmap ascii Z)) :=
  s ← get_self; i ← lift (py_index (length (counts s)) j); lift_opt (counts s !! i).

Definition contexts_at (j : Z) : M (gmap string Z) :=
  s ← get_self; i ← lift (py_index (length (contexts s)) j); lift_opt (contexts s !! i).

(** [self.contexts[j][k]] on a [defaultdict(int)]: a missing key is
    inserted with value 0. *)
Definition contexts_getitem (j : Z) (k : string) : M Z :=
  s ← get_self;
  i ← lift (py_index (length (contexts s)) j);
  d ← lift_opt (contexts s !! i);
  match d !! k with
  | Some v => mret v
  | None => put_self (set_contexts s (<[i := <[k := 0]> d]> (contexts s))) ;; mret 0
  end.

(** [self.counts[j][k]] on a [defaultdict(lambda: defaultdict(int))]. *)
Definition counts_getitem (j : Z) (k : string) : M (gmap ascii Z) :=
  s ← get_self;
  i ← lift (py_index (length (counts s)) j);
  d ← lift_opt (counts s !! i);
  match d !! k with
  | Some v => mret v
  | None => put_self (set_counts s (<[i := <[k := ∅]> d]> (counts s))) ;; mret ∅
  end.

(** Float division [x / y]: [ZeroDivisionError] when [y] is zero. *)
Definition py_divQ (x y : Q) : M Q :=
  if Qeq_bool y 0 then raise ZeroDivisionError else mret (x / y)%Q.

(** ** [get_char_probability] (ngram.py, lines 50-63) *)

Definition alpha : Q := 1 # 100.
Definition vocab_size : Q := 27.

(** The loop [for j in range(max_order, 0, -1)]; [orders] is the list of
    values of [j] still to visit. *)
Fixpoint gcp_loop (orders : list Z) (context : string) (char : ascii) : M Q :=
  match orders with
  | [] => mret (1 / 27)%Q
  | j :: rest =>
      let curr_context := py_slice_from context (- (j - 1)) in
      cj ← counts_at j;
      if decide (is_Some (cj !! curr_context)) then
        total_count ← contexts_getitem j curr_context;
        inner ← counts_getitem j curr_context;
        let char_count := default 0 (inner !! char) in
        if negb (total_count =? 0) then
          py_divQ (inject_Z char_count + alpha) (inject_Z total_count + alpha * vocab_size)
        else gcp_loop rest context char
      else gcp_loop rest context char
  end.

Definition get_char_probability (context : string) (char : ascii) : M Q :=
  s ← get_self;
  let max_order := Z.min (str_len context + 1) (n s) in
  gcp_loop (py_range_down max_order 0) context char.

(** ** Training (ngram.py, lines 32-48) *)

(** [self.counts[j][context][next_char] += 1] *)
Definition counts_incr (j : Z) (context : string) (next_char : ascii) : M unit :=
  s ← get_self;
  i ← lift (py_index (length (counts s)) j);
  d ← lift_opt (counts s !! i);
  let inner := default ∅ (d !! context) in
  let v := default 0 (inner !! next_char) in
  put_self (set_counts s (<[i := <[context := <[next_char := v + 1]> inner]> d]> (counts s))).

(** [self.contexts[j][context] += 1] *)
Definition contexts_incr (j : Z) (context : string) : M unit :=
  s ← get_self;
  i ← lift (py_index (length (contexts s)) j);
  d ← lift_opt (contexts s !! i);
  let v := default 0 (d !! context) in
  put_self (set_contexts s (<[i := <[context := v + 1]> d]> (contexts s))).

Definition train_step (corpus : string) (i j : Z) : M unit :=
  if j - 1 <=? i then
    let context := py_slice corpus (i - (j - 1)) i in
    next_char ← lift (py_str_index corpus i);
    counts_incr j context next_char ;;
    contexts_incr j context
  else mret tt.

Definition _train (corpus : string) : M unit :=
  s ← get_self;
  forM (py_range 0 (str_len corpus - n s + 1)) (fun i =>
    s' ← get_self;
    forM (py_range 1 (n s' + 1)) (fun j => train_step corpus i j)).

(** [self.backoff_weights[j][context] = w] *)
Definition backoff_setitem (j : Z) (context : string) (w : Q) : M unit :=
  s ← get_self;
  i ← lift (py_index (length (backoff_weights s)) j);
  d ← lift_opt (backoff_weights s !! i);
  put_self (set_backoff_weights s (<[i := <[context := w]> d]> (backoff_weights s))).

(** The loop over the keys of [self.contexts[j]] does not change that
    dictionary and writes distinct keys, so its iteration order does not
    matter; the keys are visited in the order of [map_to_list]. *)
Definition _calculate_backoff_weights : M unit :=
  s ← get_self;
  put_self (set_backoff_weights s (replicate (Z.to_nat (n s + 1)) ∅)) ;;
  forM (py_range 2 (n s + 1)) (fun j =>
    cj ← contexts_at j;
    forM (map fst (map_to_list cj)) (fun context =>
      let shorter_context := py_slice_from context 1 in
      cj1 ← contexts_at (j - 1);
      let w := if decide (is_Some (cj1 !! shorter_context)) then (4 # 10)%Q else (1 # 10)%Q in
      backoff_setitem j context w)).

(** ** Construction (ngram.py, lines 7-30) *)

(** [re.sub(r'[^a-zA-Z\s]', '', corpus.lower())]: the characters kept are
    the letters and the (ASCII) characters matched by [\s]. *)
Definition is_ws (c : ascii) : bool :=
  let k := nat_of_ascii c in ((9 <=? k)%nat && (k <=? 13)%nat) || ((28 <=? k)%nat && (k <=? 32)%nat).

Definition is_letter (c : ascii) : bool :=
  let k := nat_of_ascii c in ((97 <=? k)%nat && (k <=? 122)%nat) || ((65 <=? k)%nat && (k <=? 90)%nat).

(** [re.sub(r'\s+', ' ', _)]; [in_ws] says whether the previous character
    was whitespace. *)
Fixpoint collapse_ws (in_ws : bool) (l : list ascii) : list ascii :=
  match l with
  | [] => []
  | c :: l' => if is_ws c then (if in_ws then collapse_ws true l' else " "%char :: collapse_ws true l')
               else c :: collapse_ws false l'
  end.

(** [.strip()]: after collapsing, the only whitespace left is [" "]. *)
Fixpoint drop_spaces (l : list ascii) : list ascii :=
  match l with
  | c :: l' => if decide (c = " "%char) then drop_spaces l' else l
  | [] => []
  end.

Definition strip_spaces (l : list ascii) : list ascii :=
  reverse (drop_spaces (reverse (drop_spaces l))).

Definition normalize (corpus : string) : string :=
  let l := filter (fun c => is_letter c || is_ws c) (list_ascii_of_string (py_lower corpus)) in
  string_of_list_ascii (strip_spaces (collapse_ws false l)).

(** [Counter(words)] *)
Definition counter (ws : list string) : gmap string Z :=
  foldl (fun m w => <[w := default 0 (m !! w) + 1]> m) ∅ ws.

(** [list(set(w for w in words if w not in {'^', '$'}))]: Python's set
    iteration order is unspecified; the order of [elements] is used. *)
Definition vocabulary (ws : list string) : list string :=
  elements (list_to_set (filter (fun w => w <> "^"%string /\ w <> "$"%string) ws) : gset string).

Section Construction.
(** [nltk.tokenize.sent_tokenize] and [word_tokenize] are library code
    outside the repository; they are parameters of the construction. *)
Variable sent_tokenize : string -> list string.
Variable word_tokenize : string -> list string.

(** The token list [words] of lines 18-23. *)
Definition tokens_of (corpus : string) (n0 : Z) : list string :=
  let sentences := sent_tokenize (normalize corpus) in
  mjoin (map (fun sentence =>
    match word_tokenize sentence with
    | [] => []
    | tokens => replicate (Z.to_nat n0) "^"%string ++ tokens ++ ["$"%string]
    end) sentences).

Definition NgramCharacterModel_init (corpus : string) (n0 : Z) : exc + model :=
  let ws := tokens_of corpus n0 in
  let s0 := mk_model n0 (replicate (Z.to_nat (n0 + 1)) ∅) (replicate (Z.to_nat (n0 + 1)) ∅)
              [] (vocabulary ws) (counter ws) in
  let stream := String.concat " " ws in
  match (_train stream ;; _calculate_backoff_weights) s0 with
  | inl e => inl e
  | inr (_, s) => inr s
  end.
End Construction.

(** Tokenizers used for concrete runs.  On normalised text (lower-case
    letters separated by single spaces, no sentence punctuation) NLTK's
    sentence tokenizer returns the whole non-empty text as one sentence,
    and its word tokenizer splits at the spaces for the inputs used here. *)
Definition sent_tokenize_plain (s : string) : list string :=
  if String.eqb s "" then [] else [s].

Fixpoint split_spaces_aux (acc : list ascii) (l : list ascii) : list string :=
  match l with
  | [] => match acc with [] => [] | _ => [string_of_list_ascii (reverse acc)] end
  | c :: l' => if decide (c = " "%char)
               then match acc with [] => split_spaces_aux [] l' | _ => string_of_list_ascii (reverse acc) :: split_spaces_aux [] l' end
               else split_spaces_aux (c :: acc) l'
  end.

Definition word_tokenize_plain (s : string) : list string :=
  split_spaces_aux [] (list_ascii_of_string s).

Definition build (corpus : string) (n0 : Z) : exc + model :=
  NgramCharacterModel_init sent_tokenize_plain word_tokenize_plain corpus n0.

(** ** [get_word_probability] (ngram.py, lines 65-84) *)

Open Scope R_scope.

(** [math.log(x)]: [ValueError] unless [x > 0]. *)
Definition py_log (x : R) : M R :=
  if Rle_dec x 0 then raise ValueError else mret (ln x).

(** [x / y] on floats. *)
Definition py_divR (x y : R) : M R :=
  if Req_EM_T y 0 then raise ZeroDivisionError else mret (x / y).

(** The [for char in word[len(context):]] loop; [None] is the early
    [return 0.0]. *)
Fixpoint gwp_loop (chars : list ascii) (curr_context : string) (log_prob : R) : M (option R) :=
  match chars with
  | [] => mret (Some log_prob)
  | char :: rest =>
      char_prob ← get_char_probability curr_context char;
      if Qlt_le_dec 0 char_prob then
        l ← py_log (Q2R char_prob);
        s ← get_self;
        let next := py_slice_from (curr_context +:+ String char "")
                      (- Z.min (str_len curr_context + 1) (n s - 1)) in
        gwp_loop rest next (log_prob + l)
      else mret None
  end.

Definition get_word_probability (context word : string) : M R :=
  if negb (startswith word context) then mret 0 else
  s ← get_self;
  let curr_context := py_slice_from context (- Z.min (str_len context) (n s - 1)) in
  r ← gwp_loop (list_ascii_of_string (py_slice_from word (str_len context))) curr_context 0;
  match r with
  | None => mret 0
  | Some log_prob =>
      let prob := exp log_prob in
      s' ← get_self;
      lf ← py_log (1 + IZR (default 0%Z (word_freq s' !! word)));
      let freq_boost := lf / 10 in
      length_penalty ← py_divR 1 (1 + 1 / 10 * IZR (str_len word - str_len context));
      mret (prob * (1 + freq_boost) * length_penalty)
  end.

(** ** [predict_top_words] (ngram.py, lines 86-91) *)

(** [sorted(_, key=lambda x: x[1], reverse=True)] is a stable sort:
    insertion places an element after every earlier one with a score at
    least as large. *)
Fixpoint insert_desc (x : string * R) (l : list (string * R)) : list (string * R) :=
  match l with
  | [] => [x]
  | y :: l' => if Rlt_dec (snd y) (snd x) then x :: y :: l' else y :: insert_desc x l'
  end.

Definition sort_desc (l : list (string * R)) : list (string * R) :=
  foldl (fun acc x => insert_desc x acc) [] l.

Definition predict_top_words (context : string) (top_k : Z) : M (list (string * R)) :=
  let context := py_lower context in
  s ← get_self;
  let candidates := filter (fun w => startswith w context = true) (words s) in
  scored ← mapM (fun w => p ← get_word_probability context w; mret (w, p)) candidates;
  mret (py_take (sort_desc scored) top_k).

Close Scope R_scope.

(** ** Invariants of a trained model *)

(** [sum(d.values())] *)
Definition dict_sum (d : gmap ascii Z) : Z := map_fold (fun _ v acc => v + acc) 0 d.

Definition nonneg_values {K} `{Countable K} (d : gmap K Z) : Prop :=
  map_Forall (fun _ v => 0 <= v) d.

(** Order [j]'s count table [cm] and total table [tm]: the same keys, each
    total the sum of its counts and at least 1, counts non-negative. *)
Definition table_ok (cm : gmap string (gmap ascii Z)) (tm : gmap string Z) : Prop :=
  forall k, match cm !! k, tm !! k with
            | Some inner, Some t => t = dict_sum inner /\ 1 <= t /\ nonneg_values inner
            | None, None => True
            | _, _ => False
            end.

Record wf (s : model) : Prop := {
  wf_counts_len : length (counts s) = Z.to_nat (n s + 1);
  wf_contexts_len : length (contexts s) = Z.to_nat (n s + 1);
  wf_tables : forall i cm tm, counts s !! i = Some cm -> contexts s !! i = Some tm -> table_ok cm tm;
  wf_freq : nonneg_values (word_freq s)
}.

(** Sum of the counts of the characters of a list [L]. *)
Definition sum_counts (L : list ascii) (d : gmap ascii Z) : Z :=
  fold_right (fun c acc => default 0 (d !! c) + acc) 0 L.

(** The 27 symbols of the smoothing: space and the 26 lower-case letters. *)
Definition alphabet : list ascii := list_ascii_of_string " abcdefghijklmnopqrstuvwxyz".

Definition Qsum (l : list Q) : Q := fold_right Qplus 0%Q l.

(** The value returned by a query (0 if it raised). *)
Definition value_of {A} (dflt : A) (r : exc + (A * model)) : A :=
  match r with inr (x, _) => x | inl _ => dflt end.

(** The next-character counts that the loop of [get_char_probability]
    smooths: those of the first order [j] of [orders] whose table has the
    key [context[-(j - 1):]], or [None] when no order matches. *)
Fixpoint selected_counts (s : model) (orders : list Z) (context : string) : option (gmap ascii Z) :=
  match orders with
  | [] => None
  | j :: rest =>
      match counts s !! Z.to_nat j ≫= lookup (py_slice_from context (- (j - 1))) with
      | Some inner => Some inner
      | None => selected_counts s rest context
      end
  end.

(** Every character observed after the context that the lookup of
    [get_char_probability context _] selects is one of the 27 symbols
    (true when no order matches). *)
Definition selected_next_chars_in_alphabet (s : model) (ctx : string) : bool :=
  match selected_counts s (py_range_down (Z.min (str_len ctx + 1) (n s)) 0) ctx with
  | Some inner => forallb (fun kv => bool_decide (kv.1 ∈ alphabet)) (map_to_list inner)
  | None => true
  end.

Definition empty_model : model := mk_model 0 [] [] [] [] ∅.

(** The model built by [build corpus n0] (used for concrete runs). *)
Definition built (corpus : string) (n0 : Z) : model :=
  match build corpus n0 with inr s => s | inl _ => empty_model end.

(** Scores in non-increasing order. *)
Fixpoint descending (l : list (string * R)) : Prop :=
  match l with
  | [] => True
  | x :: l' => match l' with [] => True | y :: _ => (snd y <= snd x)%R end /\ descending l'
  end.

(** For every order [1 <= j <= n] and every context of [counts[j]],
    [contexts[j][ctx]] is the sum of the counts [counts[j][ctx][c]]. *)
Definition totals_invariant (s : model) : Prop :=
  forall j cm tm, 1 <= j <= n s ->
    counts s !! Z.to_nat j = Some cm -> contexts s !! Z.to_nat j = Some tm ->
    forall ctx inner, cm !! ctx = Some inner -> tm !! ctx = Some (dict_sum inner).

(** ** [_generate_word] and [_word_probability] (ngram.py, lines 93-100) *)

Definition _generate_word (prefix : string) : M (option string) :=
  top_words ← predict_top_words (py_lower prefix) 1;
  match top_words with
  | (w, _) :: _ => mret (Some w)
  | [] => mret None
  end.

Definition _word_probability (word : string) : M R :=
  get_word_probability "" word.

(** * TerminalUI (Code/user_interface.py): the editing logic

    The text of the input line is a list of ASCII characters.  The
    curses windows, the drawing methods (which only read the fields below,
    apart from [scores], [cursor_row] and [cursor_col], which no other
    method reads) and the timing fields are not modelled.  The prediction
    model is the state of the monad [M]: the UI calls its
    [predict_top_words]. *)

(** [s[a:b]], [s[:b]] and [s[a:]] on a list. *)
Definition lslice {A} (l : list A) (a b : Z) : list A :=
  let L := Z.of_nat (length l) in
  let a' := py_bound L a in
  let b' := py_bound L b in
  take (Z.to_nat (b' - a')) (drop (Z.to_nat a') l).

Definition lslice_to {A} (l : list A) (b : Z) : list A := lslice l 0 b.
Definition lslice_from {A} (l : list A) (a : Z) : list A := lslice l a (Z.of_nat (length l)).

(** [l[i]] on a list. *)
Definition py_list_index {A} (l : list A) (i : Z) : exc + A :=
  match py_index (length l) i with
  | inl e => inl e
  | inr k => match l !! k with Some x => inr x | None => inl IndexError end
  end.

(** [re.search(r"[^\s]*$", t)] by backtracking.  At a start position the
    greedy [[^\s]*] is tried with the longest run of non-whitespace first,
    then shorter ones: [star_cands] lists the candidate end positions in
    that order.  [$] matches at the end of the text or just before a final
    newline.  The search tries the start positions [0 .. len t] in turn and
    returns the first match as [(start, end)]. *)
Fixpoint star_cands (l : list ascii) (p : nat) : list nat :=
  match l with
  | c :: l' => if is_ws c then [p] else star_cands l' (S p) ++ [p]
  | [] => [p]
  end.

Definition dollar (t : list ascii) (p : nat) : bool :=
  (p =? length t)%nat || ((S p =? length t)%nat && bool_decide (t !! p = Some "010"%char)).

Definition match_at (t : list ascii) (i : nat) : option nat :=
  find (dollar t) (star_cands (drop i t) i).

Fixpoint search_from (t : list ascii) (starts : list nat) : option (nat * nat) :=
  match starts with
  | [] => None
  | i :: rest => match match_at t i with Some p => Some (i, p) | None => search_from t rest end
  end.

Definition re_search_word_end (t : list ascii) : option (nat * nat) :=
  search_from t (seq 0 (S (length t))).

(** [str.isalpha] on an ASCII character. *)
Definition isalpha (c : ascii) : bool := is_letter c.

(** [str.strip()] and [str.split()] (whitespace: [is_ws]). *)
Fixpoint drop_ws (l : list ascii) : list ascii :=
  match l with
  | c :: l' => if is_ws c then drop_ws l' else l
  | [] => []
  end.

Definition py_strip (l : list ascii) : list ascii := rev (drop_ws (rev (drop_ws l))).

Fixpoint split_ws_aux (acc : list ascii) (l : list ascii) : list (list ascii) :=
  match l with
  | [] => match acc with [] => [] | _ => [rev acc] end
  | c :: l' =>
      if is_ws c then
        match acc with [] => split_ws_aux [] l' | _ => rev acc :: split_ws_aux [] l' end
      else split_ws_aux (c :: acc) l'
  end.

Definition py_split (l : list ascii) : list (list ascii) := split_ws_aux [] l.

(** The fields of [TerminalUI] that [handle_input] reads or writes. *)
Record ui := mk_ui {
  suggestions : list (list ascii);
  current_suggestion_idx : Z;
  user_input : list ascii;
  cursor_pos : Z;
  current_word_keystrokes : Z;
  word_stats : list (Z * Z);
  tabKeyCount : Z
}.

Definition set_suggestions (u : ui) (sg : list (list ascii)) (i : Z) : ui :=
  mk_ui sg i (user_input u) (cursor_pos u) (current_word_keystrokes u) (word_stats u) (tabKeyCount u).
Definition set_input (u : ui) (t : list ascii) (c : Z) : ui :=
  mk_ui (suggestions u) (current_suggestion_idx u) t c (current_word_keystrokes u) (word_stats u) (tabKeyCount u).
Definition set_keystrokes (u : ui) (k : Z) : ui :=
  mk_ui (suggestions u) (current_suggestion_idx u) (user_input u) (cursor_pos u) k (word_stats u) (tabKeyCount u).
Definition set_word_stats (u : ui) (ws : list (Z * Z)) : ui :=
  mk_ui (suggestions u) (current_suggestion_idx u) (user_input u) (cursor_pos u) (current_word_keystrokes u) ws (tabKeyCount u).
Definition set_tabKeyCount (u : ui) (t : Z) : ui :=
  mk_ui (suggestions u) (current_suggestion_idx u) (user_input u) (cursor_pos u) (current_word_keystrokes u) (word_stats u) t.

(** The state set by [TerminalUI.__init__] (lines 10-36). *)
Definition ui_init : ui := mk_ui [] 0 [] 0 0 [] 0.

(** Lines 62-67 *)
Definition find_last_word_start (text : list ascii) (cursor_pos : Z) : Z :=
  if cursor_pos =? 0 then 0 else
  let text_before_cursor := lslice_to text cursor_pos in
  match re_search_word_end text_before_cursor with
  | Some (i, p) => cursor_pos - Z.of_nat (p - i)
  | None => cursor_pos
  end.

(** Lines 69-71 *)
Definition get_current_word (u : ui) : list ascii :=
  let word_start := find_last_word_start (user_input u) (cursor_pos u) in
  lslice (user_input u) word_start (cursor_pos u).

(** Lines 73-78 *)
Definition replace_current_word (u : ui) (new_word : list ascii) : ui :=
  let word_start := find_last_word_start (user_input u) (cursor_pos u) in
  set_input u (lslice_to (user_input u) word_start ++ new_word ++ lslice_from (user_input u) (cursor_pos u))
    (word_start + Z.of_nat (length new_word)).

(** Lines 80-93 *)
Definition finalize_current_word_stats (u : ui) : ui :=
  let ws := py_split (py_strip (user_input u)) in
  match last ws with
  | None => set_keystrokes u 0
  | Some last_word =>
      let l_i := Z.of_nat (length (filter isalpha last_word)) in
      let k_i := current_word_keystrokes u in
      let u1 := if 0 <? l_i then set_word_stats u (word_stats u ++ [(k_i, l_i)]) else u in
      set_keystrokes u1 0
  end.

(** Lines 281-288 *)
Definition update_suggestions (context : list ascii) (u : ui) : M ui :=
  top_results ← predict_top_words (string_of_list_ascii context) 10;
  mret (set_suggestions u (map (fun item => list_ascii_of_string item.1) top_results) 0).

(** The ncurses key codes. *)
Definition KEY_RESIZE : Z := 410.
Definition KEY_BACKSPACE : Z := 263.
Definition KEY_LEFT : Z := 260.
Definition KEY_RIGHT : Z := 261.

(** Lines 216-279: the new state and whether to keep running. *)
Definition handle_input (u : ui) (key : Z) : M (bool * ui) :=
  if key =? KEY_RESIZE then mret (true, u)
  else if key =? 27 then mret (false, u)
  else if key =? 9 then
    let u1 := set_tabKeyCount u (tabKeyCount u + 1) in
    match suggestions u with
    | [] => mret (true, u1)
    | _ => mret (true, set_suggestions u1 (suggestions u)
                          ((current_suggestion_idx u + 1) mod Z.of_nat (length (suggestions u))))
    end
  else if key =? 10 then
    u1 ← (match suggestions u with
          | [] => mret u
          | _ => if current_suggestion_idx u <? Z.of_nat (length (suggestions u)) then
                   w ← lift (py_list_index (suggestions u) (current_suggestion_idx u));
                   mret (replace_current_word u w)
                 else mret u
          end);
    let u2 := finalize_current_word_stats u1 in
    mret (true, set_suggestions u2 [] 0)
  else if (key =? KEY_BACKSPACE) || (key =? 127) || (key =? 8) then
    if 0 <? cursor_pos u then
      char_deleted ← lift (py_list_index (user_input u) (cursor_pos u - 1));
      let u1 := set_input u (lslice_to (user_input u) (cursor_pos u - 1) ++
                             lslice_from (user_input u) (cursor_pos u)) (cursor_pos u - 1) in
      let u2 := if isalpha char_deleted && (0 <? current_word_keystrokes u1)
                then set_keystrokes u1 (current_word_keystrokes u1 - 1) else u1 in
      u3 ← update_suggestions (get_current_word u2) u2;
      mret (true, u3)
    else mret (true, u)
  else if key =? KEY_LEFT then
    if 0 <? cursor_pos u then
      let u1 := set_input u (user_input u) (cursor_pos u - 1) in
      u2 ← update_suggestions (get_current_word u1) u1;
      mret (true, u2)
    else mret (true, u)
  else if key =? KEY_RIGHT then
    if cursor_pos u <? Z.of_nat (length (user_input u)) then
      let u1 := set_input u (user_input u) (cursor_pos u + 1) in
      u2 ← update_suggestions (get_current_word u1) u1;
      mret (true, u2)
    else mret (true, u)
  else if (32 <=? key) && (key <=? 126) then
    let char := ascii_of_nat (Z.to_nat key) in
    let u1 := set_input u (lslice_to (user_input u) (cursor_pos u) ++ [char] ++
                           lslice_from (user_input u) (cursor_pos u)) (cursor_pos u + 1) in
    let u2 := if isalpha char then set_keystrokes u1 (current_word_keystrokes u1 + 1) else u1 in
    let u3 := if decide (char = " "%char) then finalize_current_word_stats u2 else u2 in
    u4 ← update_suggestions (get_current_word u3) u3;
    mret (true, u4)
  else mret (true, u).

(** The interactive loop of [run] (lines 394-416) without the drawing:
    each key goes to [handle_input]; the loop stops at the first key for
    which it returns [False]. *)
Fixpoint run_keys (u : ui) (keys : list Z) : M ui :=
  match keys with
  | [] => mret u
  | k :: ks =>
      mbind (M := M) (fun r : bool * ui =>
        let '(keep_running, u') := r in
        if keep_running then run_keys u' ks else mret u') (handle_input u k)
  end.

(** Invariant of the interface state kept by [handle_input]: the cursor
    inside the text, a valid suggestion index, at most ten suggestions,
    non-negative counters and recorded words of positive length. *)
Definition ui_ok (u : ui) : Prop :=
  0 <= cursor_pos u <= Z.of_nat (length (user_input u)) /\
  0 <= current_suggestion_idx u /\
  (current_suggestion_idx u = 0 \/ current_suggestion_idx u < Z.of_nat (length (suggestions u))) /\
  (length (suggestions u) <= 10)%nat /\
  0 <= current_word_keystrokes u /\ 0 <= tabKeyCount u /\
  Forall (fun kl => 0 <= kl.1 /\ 0 < kl.2) (word_stats u).

Ltac ui_ok_solve :=
  unfold ui_ok in *; simpl in *;
  repeat match goal with H : _ /\ _ |- _ => destruct H end;
  split_and!; try lia; try done.

(** [calculate_scores] (lines 38-60).  The two integer entries and the two
    float averages of the returned list are all given as rationals. *)
Definition calculate_scores (u : ui) : list Q :=
  let total_letters := fold_right Z.add 0 (map fst (word_stats u)) in
  let total_tabs := tabKeyCount u in
  let sum_of_final_letters := fold_right Z.add 0 (map snd (word_stats u)) in
  let avg_letters_per_word :=
    if 0 <? sum_of_final_letters then (inject_Z total_letters / inject_Z sum_of_final_letters)%Q else 0%Q in
  let total_words := Z.of_nat (length (word_stats u)) in
  let avg_tabs_per_word :=
    if 0 <? total_words then (inject_Z total_tabs / inject_Z total_words)%Q else 0%Q in
  [inject_Z total_letters; inject_Z total_tabs; avg_letters_per_word; avg_tabs_per_word].

(** The weight [_calculate_backoff_weights] (ngram.py, lines 42-48) gives
    to a context of order [j]: 0.4 if the context without its first
    character is a context of order [j - 1], else 0.1. *)
Definition backoff_weight (s : model) (j : nat) (context : string) : Q :=
  match contexts s !! (j - 1)%nat with
  | Some tm' => if decide (is_Some (tm' !! py_slice_from context 1)) then (4 # 10)%Q else (1 # 10)%Q
  | None => (1 # 10)%Q
  end.

(** The value expected at [backoff_weights[j][context]]: present for the
    orders [j >= 2] and the contexts of [contexts[j]]. *)
Definition expected_backoff (s : model) (j : nat) (context : string) : option Q :=
  if (2 <=? j)%nat then (contexts s !! j ≫= (fun tm => tm !! context)) ≫= (fun _ => Some (backoff_weight s j context))
  else None.

Section DictSum.

Lemma dict_sum_empty : dict_sum ∅ = 0.
Proof. apply map_fold_empty. Qed.

Lemma dict_sum_insert_new (d : gmap ascii Z) c v :
  d !! c = None -> dict_sum (<[c := v]> d) = v + dict_sum d.
Proof. intros Hc. unfold dict_sum. apply map_fold_insert_L; [intros; lia | done]. Qed.

Lemma dict_sum_delete (d : gmap ascii Z) c v :
  d !! c = Some v -> dict_sum d = v + dict_sum (delete c d).
Proof.
  intros Hc. unfold dict_sum.
  rewrite (map_fold_delete_L (fun _ v acc => v + acc) 0 c v d); [done| |done]. intros; lia.
Qed.

Lemma dict_sum_get (d : gmap ascii Z) c :
  dict_sum d = default 0 (d !! c) + dict_sum (delete c d).
Proof.
  destruct (d !! c) as [v|] eqn:Hc; simpl.
  - by apply dict_sum_delete.
  - rewrite delete_id by done. lia.
Qed.

Lemma dict_sum_incr (d : gmap ascii Z) c :
  dict_sum (<[c := default 0 (d !! c) + 1]> d) = dict_sum d + 1.
Proof.
  rewrite (dict_sum_get d c), <- insert_delete_eq.
  rewrite dict_sum_insert_new by (apply lookup_delete_eq). lia.
Qed.

Lemma nonneg_delete (d : gmap ascii Z) c : nonneg_values d -> nonneg_values (delete c d).
Proof. intros H. unfold nonneg_values. by apply map_Forall_delete. Qed.

Lemma dict_sum_nonneg (d : gmap ascii Z) : nonneg_values d -> 0 <= dict_sum d.
Proof.
  induction d as [|c v d Hc IH] using map_ind; intros H.
  - rewrite dict_sum_empty; lia.
  - apply map_Forall_insert in H as [Hv Hd]; [|done].
    rewrite dict_sum_insert_new by done. specialize (IH Hd). lia.
Qed.

Lemma dict_sum_ge (d : gmap ascii Z) c v :
  nonneg_values d -> d !! c = Some v -> v <= dict_sum d.
Proof.
  intros H Hc. rewrite (dict_sum_delete d c v Hc).
  pose proof (dict_sum_nonneg _ (nonneg_delete d c H)). lia.
Qed.

Lemma sum_counts_delete L (d : gmap ascii Z) c :
  c ∉ L -> sum_counts L (delete c d) = sum_counts L d.
Proof.
  induction L as [|c' L IH]; intros Hn; simpl; [done|].
  rewrite IH by set_solver. rewrite lookup_delete_ne by set_solver. done.
Qed.

Lemma sum_counts_le L (d : gmap ascii Z) :
  NoDup L -> nonneg_values d -> sum_counts L d <= dict_sum d.
Proof.
  revert d; induction L as [|c L IH]; intros d HL Hd; simpl.
  - by apply dict_sum_nonneg.
  - apply NoDup_cons in HL as [Hc HL].
    rewrite (dict_sum_get d c), <- (sum_counts_delete L d c Hc).
    specialize (IH (delete c d) HL (nonneg_delete d c Hd)). lia.
Qed.

Lemma sum_counts_eq L (d : gmap ascii Z) :
  NoDup L -> (forall c v, d !! c = Some v -> c ∈ L) -> sum_counts L d = dict_sum d.
Proof.
  revert d; induction L as [|c L IH]; intros d HL Hdom; simpl.
  - assert (d = ∅) as ->.
    { apply map_empty. intros c. destruct (d !! c) eqn:E; [|done].
      apply Hdom in E. set_solver. }
    by rewrite dict_sum_empty.
  - apply NoDup_cons in HL as [Hc HL].
    rewrite (dict_sum_get d c), <- (sum_counts_delete L d c Hc).
    rewrite (IH (delete c d) HL); [lia|].
    intros c' v Hc'. destruct (decide (c' = c)) as [->|Hne].
    + by rewrite lookup_delete_eq in Hc'.
    + rewrite lookup_delete_ne in Hc' by done. apply Hdom in Hc'. set_solver.
Qed.

End DictSum.

(** ** Monad and Python helper facts *)

Ltac unfold_M :=
  unfold get_self, put_self, lift, lift_opt, raise, mbind, M_bind, mret, M_ret in *.

Lemma forM_inv {A} (P : model -> Prop) (l : list A) (f : A -> M unit) s :
  (forall x s, In x l -> P s -> exists s', f x s = inr (tt, s') /\ P s') ->
  P s -> exists s', forM l f s = inr (tt, s') /\ P s'.
Proof.
  revert s; induction l as [|x l IH]; intros s Hf Hs; simpl.
  - exists s. done.
  - destruct (Hf x s) as [s1 [E1 H1]]; [left; done|done|].
    unfold mbind, M_bind. rewrite E1. apply IH; [|done].
    intros y s' Hy. apply Hf. right; done.
Qed.

Lemma py_index_ok len j :
  0 <= j -> j < Z.of_nat len -> py_index len j = inr (Z.to_nat j).
Proof.
  intros H1 H2. unfold py_index.
  destruct (j <? 0) eqn:E; [lia|].
  destruct ((0 <=? j) && (j <? Z.of_nat len)) eqn:E2; [done|].
  apply andb_false_iff in E2 as [E2|E2]; lia.
Qed.

Lemma in_py_range a b x : In x (py_range a b) <-> a <= x < b.
Proof.
  unfold py_range. rewrite in_map_iff. split.
  - intros (k & <- & Hk). apply in_seq in Hk. lia.
  - intros H. exists (Z.to_nat (x - a)). split; [lia|]. apply in_seq. lia.
Qed.

Lemma in_py_range_down a b x : In x (py_range_down a b) <-> b < x <= a.
Proof.
  unfold py_range_down. rewrite in_map_iff. split.
  - intros (k & <- & Hk). apply in_seq in Hk. lia.
  - intros H. exists (Z.to_nat (a - x)). split; [lia|]. apply in_seq. lia.
Qed.

Lemma string_get_lt (s : string) k :
  (k < String.length s)%nat -> exists c, String.get k s = Some c.
Proof.
  revert k; induction s as [|c s IH]; intros k Hk; simpl in *; [lia|].
  destruct k; [exists c; reflexivity|]. apply IH. lia.
Qed.

Lemma py_str_index_ok (s : string) i :
  0 <= i < str_len s -> exists c, py_str_index s i = inr c.
Proof.
  intros Hi. unfold py_str_index, str_len in *. rewrite py_index_ok by lia.
  destruct (string_get_lt s (Z.to_nat i)) as [c Hc]; [lia|]. rewrite Hc. eauto.
Qed.

Lemma table_ok_empty : table_ok ∅ ∅.
Proof. intros k. by rewrite !lookup_empty. Qed.

Lemma table_ok_incr cm tm ctx c :
  table_ok cm tm ->
  table_ok (<[ctx := <[c := default 0 (default ∅ (cm !! ctx) !! c) + 1]> (default ∅ (cm !! ctx))]> cm)
           (<[ctx := default 0 (tm !! ctx) + 1]> tm).
Proof.
  intros H k. destruct (decide (k = ctx)) as [->|Hne].
  - rewrite !lookup_insert_eq. specialize (H ctx).
    destruct (cm !! ctx) as [inner|], (tm !! ctx) as [t|]; try done; cbn [default Datatypes.id].
    + destruct H as (-> & Ht & Hnn). rewrite dict_sum_incr.
      pose proof (dict_sum_nonneg _ Hnn).
      split; [lia|split; [lia|]]. apply map_Forall_insert_2; [|done].
      destruct (inner !! c) eqn:E; simpl; [|lia]. specialize (Hnn _ _ E). simpl in Hnn. lia.
    + rewrite dict_sum_incr, dict_sum_empty. split; [lia|split; [lia|]].
      apply map_Forall_insert_2; [|apply map_Forall_empty]. rewrite lookup_empty. simpl. lia.
  - rewrite !lookup_insert_ne by done. apply H.
Qed.

(** ** Training keeps the tables consistent *)

Lemma train_step_ok corpus i j s :
  wf s -> 1 <= j <= n s -> 0 <= i < str_len corpus ->
  exists s', train_step corpus i j s = inr (tt, s') /\ wf s' /\ n s' = n s /\
             words s' = words s /\ word_freq s' = word_freq s.
Proof.
  intros Hwf Hj Hi. unfold train_step.
  destruct (j - 1 <=? i) eqn:E; [|exists s; done].
  destruct (py_str_index_ok corpus i Hi) as [c Hc].
  pose proof (wf_counts_len s Hwf) as Lc. pose proof (wf_contexts_len s Hwf) as Lt.
  destruct (lookup_lt_is_Some_2 (counts s) (Z.to_nat j)) as [cm Hcm]; [lia|].
  destruct (lookup_lt_is_Some_2 (contexts s) (Z.to_nat j)) as [tm Htm]; [lia|].
  unfold counts_incr, contexts_incr. unfold_M. rewrite Hc.
  rewrite (py_index_ok (length (counts s))) by lia. rewrite Hcm. simpl.
  rewrite (py_index_ok (length (contexts s))) by lia. rewrite Htm. simpl.
  eexists; split; [reflexivity|]. simpl.
  split_and!; try done.
  constructor; simpl.
  - rewrite length_insert. apply Lc.
  - rewrite length_insert. apply Lt.
  - intros k cm' tm'. rewrite !list_lookup_insert_Some.
    intros [[<- [<- _]]|[Hk1 Hk2]] [[Hk3 [<- _]]|[Hk4 Hk5]].
    + by apply table_ok_incr, (wf_tables s Hwf (Z.to_nat j)).
    + done.
    + done.
    + by apply (wf_tables s Hwf k).
  - apply (wf_freq s Hwf).
Qed.

Lemma train_ok corpus s :
  wf s -> exists s', _train corpus s = inr (tt, s') /\ wf s' /\ n s' = n s /\
                     words s' = words s /\ word_freq s' = word_freq s.
Proof.
  intros Hwf. unfold _train. unfold get_self, mbind, M_bind.
  set (P := fun s' => wf s' /\ n s' = n s /\ words s' = words s /\ word_freq s' = word_freq s).
  apply (forM_inv P); [|by split_and!].
  intros i s1 Hi (Hwf1 & Hn1 & Hw1 & Hf1). apply in_py_range in Hi.
  apply (forM_inv P); [|by split_and!].
  intros j s2 Hj (Hwf2 & Hn2 & Hw2 & Hf2). apply in_py_range in Hj.
  destruct (train_step_ok corpus i j s2) as (s3 & E & Hwf3 & Hn3 & Hw3 & Hf3); [done|lia|lia|].
  exists s3. split; [done|]. unfold P. split_and!; congruence.
Qed.

Lemma wf_same s s' :
  counts s' = counts s -> contexts s' = contexts s -> n s' = n s ->
  word_freq s' = word_freq s -> wf s -> wf s'.
Proof.
  intros Hc Ht Hn Hf [H1 H2 H3 H4]. constructor; rewrite ?Hc, ?Ht, ?Hn, ?Hf; done.
Qed.

Lemma backoff_ok s :
  wf s -> exists s', _calculate_backoff_weights s = inr (tt, s') /\ wf s' /\ n s' = n s /\
                     counts s' = counts s /\ contexts s' = contexts s /\
                     words s' = words s /\ word_freq s' = word_freq s.
Proof.
  intros Hwf. pose proof (wf_contexts_len s Hwf) as Lt.
  set (P := fun s' => counts s' = counts s /\ contexts s' = contexts s /\ n s' = n s /\
                      words s' = words s /\ word_freq s' = word_freq s /\
                      length (backoff_weights s') = Z.to_nat (n s + 1)).
  assert (Hfin : forall s', P s' -> wf s' /\ n s' = n s /\ counts s' = counts s /\
            contexts s' = contexts s /\ words s' = words s /\ word_freq s' = word_freq s).
  { intros s' (Hc & Ht & Hn & Hw & Hf & _). split_and!; try done. by apply (wf_same s). }
  unfold _calculate_backoff_weights. unfold get_self, put_self, mbind, M_bind.
  match goal with |- context [forM ?l ?f ?s0] => destruct (forM_inv P l f s0) as (s' & E & HP) end.
  3: { rewrite E. exists s'. split; [done|]. by apply Hfin. }
  2: { unfold P; simpl. split_and!; try done. apply length_replicate. }
  intros j s1 Hj (Hc1 & Ht1 & Hn1 & Hw1 & Hf1 & Hb1). apply in_py_range in Hj.
  unfold contexts_at. unfold_M.
  rewrite (py_index_ok (length (contexts s1))) by (rewrite ?Ht1; lia).
  destruct (lookup_lt_is_Some_2 (contexts s1) (Z.to_nat j)) as [tm Htm]; [rewrite Ht1; lia|].
  rewrite Htm. simpl.
  apply (forM_inv P); [|by split_and!].
  intros k s2 _ (Hc2 & Ht2 & Hn2 & Hw2 & Hf2 & Hb2).
  rewrite (py_index_ok (length (contexts s2))) by (rewrite ?Ht2; lia).
  destruct (lookup_lt_is_Some_2 (contexts s2) (Z.to_nat (j - 1))) as [tm' Htm']; [rewrite Ht2; lia|].
  rewrite Htm'. simpl. unfold backoff_setitem. unfold_M.
  rewrite (py_index_ok (length (backoff_weights s2))) by lia.
  destruct (lookup_lt_is_Some_2 (backoff_weights s2) (Z.to_nat j)) as [bm Hbm]; [lia|].
  rewrite Hbm. simpl. eexists; split; [reflexivity|].
  unfold P; simpl. split_and!; try done. by rewrite length_insert.
Qed.

Lemma counter_nonneg ws : nonneg_values (counter ws).
Proof.
  unfold counter.
  assert (Hgen : forall acc, nonneg_values acc ->
    nonneg_values (foldl (fun m w => <[w := default 0 (m !! w) + 1]> m) acc ws)).
  { induction ws as [|w ws IH]; intros acc Hacc; simpl; [done|]. apply IH.
    apply map_Forall_insert_2; [|done].
    destruct (acc !! w) eqn:E; simpl; [|lia]. specialize (Hacc _ _ E). simpl in Hacc. lia. }
  apply Hgen, map_Forall_empty.
Qed.

Lemma init_ok st wt corpus n0 :
  exists s, NgramCharacterModel_init st wt corpus n0 = inr s /\ wf s /\ n s = n0 /\
            words s = vocabulary (tokens_of st wt corpus n0) /\
            word_freq s = counter (tokens_of st wt corpus n0).
Proof.
  unfold NgramCharacterModel_init.
  set (ws := tokens_of st wt corpus n0).
  set (s0 := mk_model n0 (replicate (Z.to_nat (n0 + 1)) ∅) (replicate (Z.to_nat (n0 + 1)) ∅)
               [] (vocabulary ws) (counter ws)).
  assert (Hwf0 : wf s0).
  { constructor; simpl; try apply length_replicate.
    - intros i cm tm Hcm Htm.
      apply lookup_replicate in Hcm as [-> _]. apply lookup_replicate in Htm as [-> _].
      apply table_ok_empty.
    - apply counter_nonneg. }
  destruct (train_ok (String.concat " " ws) s0 Hwf0) as (s1 & E1 & Hwf1 & Hn1 & Hw1 & Hf1).
  destruct (backoff_ok s1 Hwf1) as (s2 & E2 & Hwf2 & Hn2 & _ & _ & Hw2 & Hf2).
  unfold mbind at 1, M_bind at 1. rewrite E1, E2.
  exists s2. split_and!; try done; [rewrite Hn2, Hn1|rewrite Hw2, Hw1|rewrite Hf2, Hf1]; reflexivity.
Qed.

(** The plain tokenizers build a well-formed model. *)
Lemma build_built corpus n0 :
  build corpus n0 = inr (built corpus n0) /\ wf (built corpus n0).
Proof.
  destruct (init_ok sent_tokenize_plain word_tokenize_plain corpus n0) as (s & Es & Hwf & _).
  unfold built, build. rewrite Es. auto.
Qed.

(** ** The lookup loop of [get_char_probability] *)

Lemma counts_at_ok j s cm :
  wf s -> 1 <= j <= n s -> counts s !! Z.to_nat j = Some cm -> counts_at j s = inr (cm, s).
Proof.
  intros Hwf Hj Hcm. pose proof (wf_counts_len s Hwf).
  unfold counts_at. unfold_M. rewrite py_index_ok by lia. rewrite Hcm. reflexivity.
Qed.

Lemma contexts_getitem_ok j k s tm t :
  wf s -> 1 <= j <= n s -> contexts s !! Z.to_nat j = Some tm -> tm !! k = Some t ->
  contexts_getitem j k s = inr (t, s).
Proof.
  intros Hwf Hj Htm Ht. pose proof (wf_contexts_len s Hwf).
  unfold contexts_getitem. unfold_M. rewrite py_index_ok by lia. rewrite Htm. simpl.
  rewrite Ht. reflexivity.
Qed.

Lemma counts_getitem_ok j k s cm inner :
  wf s -> 1 <= j <= n s -> counts s !! Z.to_nat j = Some cm -> cm !! k = Some inner ->
  counts_getitem j k s = inr (inner, s).
Proof.
  intros Hwf Hj Hcm Hi. pose proof (wf_counts_len s Hwf).
  unfold counts_getitem. unfold_M. rewrite py_index_ok by lia. rewrite Hcm. simpl.
  rewrite Hi. reflexivity.
Qed.

(** Either no order matches and every character gets [1/27], or one
    order [j] (the first of [orders] whose table has the sliced context)
    decides the probability of every character. *)
Lemma gcp_loop_cases (orders : list Z) ctx s :
  wf s -> (forall j, In j orders -> 1 <= j <= n s) ->
  (forall c, gcp_loop orders ctx c s = inr ((1 / 27)%Q, s)) \/
  exists j cm tm inner t,
    In j orders /\ counts s !! Z.to_nat j = Some cm /\ contexts s !! Z.to_nat j = Some tm /\
    cm !! py_slice_from ctx (- (j - 1)) = Some inner /\ tm !! py_slice_from ctx (- (j - 1)) = Some t /\
    t = dict_sum inner /\ 1 <= t /\ nonneg_values inner /\
    forall c, gcp_loop orders ctx c s =
      inr (((inject_Z (default 0%Z (inner !! c)) + alpha) / (inject_Z t + alpha * vocab_size))%Q, s).
Proof.
  intros Hwf. induction orders as [|j rest IH]; intros Hord.
  - left. intros c. reflexivity.
  - assert (Hj : 1 <= j <= n s) by (apply Hord; left; done).
    pose proof (wf_counts_len s Hwf). pose proof (wf_contexts_len s Hwf).
    destruct (lookup_lt_is_Some_2 (counts s) (Z.to_nat j)) as [cm Hcm]; [lia|].
    destruct (lookup_lt_is_Some_2 (contexts s) (Z.to_nat j)) as [tm Htm]; [lia|].
    pose proof (wf_tables s Hwf _ _ _ Hcm Htm (py_slice_from ctx (- (j - 1)))) as Htab.
    destruct (cm !! py_slice_from ctx (- (j - 1))) as [inner|] eqn:Hcur.
    + destruct (tm !! py_slice_from ctx (- (j - 1))) as [t|] eqn:Ht; [|done].
      destruct Htab as (Hsum & Ht1 & Hnn).
      right. exists j, cm, tm, inner, t. split_and!; try done; [left; done|].
      intros c. simpl. unfold mbind at 1, M_bind at 1. rewrite (counts_at_ok j s cm) by done.
      rewrite decide_True by (rewrite Hcur; eauto).
      unfold mbind at 1, M_bind at 1. rewrite (contexts_getitem_ok j _ s tm t) by done.
      unfold mbind at 1, M_bind at 1. rewrite (counts_getitem_ok j _ s cm inner) by done.
      destruct (t =? 0) eqn:E0; [lia|]. simpl.
      unfold py_divQ. destruct (Qeq_bool (inject_Z t + alpha * vocab_size) 0) eqn:Eq.
      * apply Qeq_bool_iff in Eq. unfold Qeq in Eq. simpl in Eq. lia.
      * reflexivity.
    + assert (Hrest : forall c, gcp_loop (j :: rest) ctx c s = gcp_loop rest ctx c s).
      { intros c. simpl. unfold mbind at 1, M_bind at 1. rewrite (counts_at_ok j s cm) by done.
        rewrite decide_False by (rewrite Hcur; intros [? ?]; done). reflexivity. }
      destruct IH as [IH|(j' & cm' & tm' & inner & t & Hin & IH)].
      * intros j' Hj'. apply Hord. right; done.
      * left. intros c. rewrite Hrest. apply IH.
      * right. exists j', cm', tm', inner, t. split; [right; done|].
        destruct IH as (H1 & H2 & H3 & H4 & H5 & H6 & H7 & H8).
        split_and!; try done. intros c. rewrite Hrest. apply H8.
Qed.

(** The loop returns the smoothed estimate of the counts selected by
    [selected_counts], or [1/27] when none is selected. *)
Lemma gcp_loop_selected (orders : list Z) ctx s :
  wf s -> (forall j, In j orders -> 1 <= j <= n s) ->
  match selected_counts s orders ctx with
  | None => forall c, gcp_loop orders ctx c s = inr ((1 / 27)%Q, s)
  | Some inner =>
      exists t, t = dict_sum inner /\ 1 <= t /\ nonneg_values inner /\
        forall c, gcp_loop orders ctx c s =
          inr (((inject_Z (default 0%Z (inner !! c)) + alpha) / (inject_Z t + alpha * vocab_size))%Q, s)
  end.
Proof.
  intros Hwf. induction orders as [|j rest IH]; intros Hord.
  - intros c. reflexivity.
  - assert (Hj : 1 <= j <= n s) by (apply Hord; left; done).
    assert (IH' := IH (fun j' Hj' => Hord j' (or_intror Hj'))). clear IH.
    pose proof (wf_counts_len s Hwf). pose proof (wf_contexts_len s Hwf).
    destruct (lookup_lt_is_Some_2 (counts s) (Z.to_nat j)) as [cm Hcm]; [lia|].
    destruct (lookup_lt_is_Some_2 (contexts s) (Z.to_nat j)) as [tm Htm]; [lia|].
    pose proof (wf_tables s Hwf _ _ _ Hcm Htm (py_slice_from ctx (- (j - 1)))) as Htab.
    cbn [selected_counts]. rewrite Hcm. cbn [mbind option_bind].
    destruct (cm !! py_slice_from ctx (- (j - 1))) as [inner|] eqn:Hcur.
    + destruct (tm !! py_slice_from ctx (- (j - 1))) as [t|] eqn:Ht; [|done].
      destruct Htab as (Hsum & Ht1 & Hnn).
      exists t. split_and!; try done.
      intros c. simpl. unfold mbind at 1, M_bind at 1. rewrite (counts_at_ok j s cm) by done.
      rewrite decide_True by (rewrite Hcur; eauto).
      unfold mbind at 1, M_bind at 1. rewrite (contexts_getitem_ok j _ s tm t) by done.
      unfold mbind at 1, M_bind at 1. rewrite (counts_getitem_ok j _ s cm inner) by done.
      destruct (t =? 0) eqn:E0; [lia|]. simpl.
      unfold py_divQ. destruct (Qeq_bool (inject_Z t + alpha * vocab_size) 0) eqn:Eq.
      * apply Qeq_bool_iff in Eq. unfold Qeq in Eq. simpl in Eq. lia.
      * reflexivity.
    + assert (Hrest : forall c, gcp_loop (j :: rest) ctx c s = gcp_loop rest ctx c s).
      { intros c. simpl. unfold mbind at 1, M_bind at 1. rewrite (counts_at_ok j s cm) by done.
        rewrite decide_False by (rewrite Hcur; intros [? ?]; done). reflexivity. }
      destruct (selected_counts s rest ctx) as [inner|].
      * destruct IH' as (t & H1 & H2 & H3 & H4). exists t. split_and!; try done.
        intros c. rewrite Hrest. apply H4.
      * intros c. rewrite Hrest. apply IH'.
Qed.

Lemma get_char_probability_cases ctx s :
  wf s ->
  (forall c, get_char_probability ctx c s = inr ((1 / 27)%Q, s)) \/
  exists j cm tm inner t,
    1 <= j <= n s /\ counts s !! Z.to_nat j = Some cm /\ contexts s !! Z.to_nat j = Some tm /\
    cm !! py_slice_from ctx (- (j - 1)) = Some inner /\ tm !! py_slice_from ctx (- (j - 1)) = Some t /\
    t = dict_sum inner /\ 1 <= t /\ nonneg_values inner /\
    forall c, get_char_probability ctx c s =
      inr (((inject_Z (default 0%Z (inner !! c)) + alpha) / (inject_Z t + alpha * vocab_size))%Q, s).
Proof.
  intros Hwf. unfold get_char_probability, get_self, mbind, M_bind.
  destruct (gcp_loop_cases (py_range_down (Z.min (str_len ctx + 1) (n s)) 0) ctx s Hwf)
    as [H|(j & cm & tm & inner & t & Hin & H)].
  - intros j Hj. apply in_py_range_down in Hj. lia.
  - left. exact H.
  - right. exists j, cm, tm, inner, t. apply in_py_range_down in Hin. split; [lia|exact H].
Qed.

Lemma smoothed_bounds (v t : Z) :
  0 <= v <= t -> 1 <= t ->
  (0 < (inject_Z v + alpha) / (inject_Z t + alpha * vocab_size))%Q /\
  ((inject_Z v + alpha) / (inject_Z t + alpha * vocab_size) <= 1)%Q.
Proof.
  intros Hv Ht. assert (HT : (0 < inject_Z t + alpha * vocab_size)%Q).
  { unfold Qlt; simpl; lia. }
  split.
  - apply Qlt_shift_div_l; [done|]. unfold Qlt; simpl; lia.
  - apply Qle_shift_div_r; [done|]. unfold Qle; simpl; lia.
Qed.

Lemma get_char_probability_ok ctx c s :
  wf s -> exists p, get_char_probability ctx c s = inr (p, s) /\ (0 < p)%Q /\ (p <= 1)%Q.
Proof.
  intros Hwf. destruct (get_char_probability_cases ctx s Hwf)
    as [H|(j & cm & tm & inner & t & Hj & Hcm & Htm & Hi & Ht & Hsum & Ht1 & Hnn & H)].
  - exists (1 / 27)%Q. rewrite H. split; [done|]. split; vm_compute; done.
  - eexists. rewrite H. split; [reflexivity|]. apply smoothed_bounds; [|done].
    destruct (inner !! c) as [v|] eqn:E; simpl; [|lia]. split.
    + specialize (Hnn _ _ E). done.
    + subst t. by apply (dict_sum_ge inner c).
Qed.

(** ** Word scores *)

Lemma prefix_length (p w : string) :
  String.prefix p w = true -> (String.length p <= String.length w)%nat.
Proof.
  revert w; induction p as [|a p IH]; intros w H; simpl; [lia|].
  destruct w as [|b w]; simpl in H; [done|].
  destruct (ascii_dec a b); [|done]. apply IH in H. simpl. lia.
Qed.

Lemma Q2R_pos (p : Q) : (0 < p)%Q -> (0 < Q2R p)%R.
Proof.
  intros Hp. apply Qlt_Rlt in Hp. unfold Q2R at 1 in Hp. simpl in Hp. lra.
Qed.

Lemma gwp_loop_cons_pos c rest curr lp s p :
  get_char_probability curr c s = inr (p, s) -> (0 < p)%Q ->
  gwp_loop (c :: rest) curr lp s =
  gwp_loop rest (py_slice_from (curr +:+ String c "") (- Z.min (str_len curr + 1) (n s - 1)))
    (lp + ln (Q2R p))%R s.
Proof.
  intros E Hp. simpl. unfold mbind at 1, M_bind at 1. rewrite E.
  destruct (Qlt_le_dec 0 p) as [_|Hle]; [|exfalso; by apply (Qlt_not_le 0 p)].
  unfold py_log. pose proof (Q2R_pos p Hp).
  destruct (Rle_dec (Q2R p) 0); [lra|]. reflexivity.
Qed.

Lemma gwp_loop_ok chars curr lp s :
  wf s -> exists lp', gwp_loop chars curr lp s = inr (Some lp', s).
Proof.
  intros Hwf. revert curr lp. induction chars as [|c rest IH]; intros curr lp.
  - exists lp. reflexivity.
  - destruct (get_char_probability_ok curr c s Hwf) as (p & E & Hp & _).
    rewrite (gwp_loop_cons_pos c rest curr lp s p E Hp). apply IH.
Qed.

Lemma get_word_probability_value ctx w s lp :
  wf s -> startswith w ctx = true ->
  gwp_loop (list_ascii_of_string (py_slice_from w (str_len ctx)))
    (py_slice_from ctx (- Z.min (str_len ctx) (n s - 1))) 0%R s = inr (Some lp, s) ->
  get_word_probability ctx w s =
    inr ((exp lp * (1 + ln (1 + IZR (default 0%Z (word_freq s !! w))) / 10) *
          (1 / (1 + 1 / 10 * IZR (str_len w - str_len ctx))))%R, s).
Proof.
  intros Hwf Hpre Hloop. unfold get_word_probability. rewrite Hpre. cbn [negb].
  unfold get_self, mbind, M_bind. rewrite Hloop.
  assert (Hf : (0 <= IZR (default 0%Z (word_freq s !! w)))%R).
  { apply IZR_le. destruct (word_freq s !! w) eqn:E; simpl; [|lia].
    apply (wf_freq s Hwf _ _ E). }
  unfold py_log. destruct (Rle_dec _ 0); [lra|]. unfold mret, M_ret.
  assert (Hlen : (0 <= IZR (str_len w - str_len ctx))%R).
  { apply IZR_le. unfold str_len. apply prefix_length in Hpre. lia. }
  unfold py_divR. destruct (Req_EM_T _ 0); [lra|]. reflexivity.
Qed.

Lemma get_word_probability_ok ctx w s :
  wf s -> exists r, get_word_probability ctx w s = inr (r, s).
Proof.
  intros Hwf. destruct (startswith w ctx) eqn:Hpre.
  - destruct (gwp_loop_ok (list_ascii_of_string (py_slice_from w (str_len ctx)))
      (py_slice_from ctx (- Z.min (str_len ctx) (n s - 1))) 0%R s Hwf) as [lp Hlp].
    eexists. by apply get_word_probability_value.
  - exists 0%R. unfold get_word_probability. rewrite Hpre. reflexivity.
Qed.

(** ** Ranking *)

Lemma insert_desc_perm x l : insert_desc x l ≡ₚ x :: l.
Proof.
  induction l as [|y l IH]; simpl; [done|].
  destruct (Rlt_dec (snd y) (snd x)); [done|]. rewrite IH. apply Permutation_swap.
Qed.

Lemma sort_desc_perm l : sort_desc l ≡ₚ l.
Proof.
  unfold sort_desc.
  assert (Hgen : forall acc, foldl (fun acc x => insert_desc x acc) acc l ≡ₚ acc ++ l).
  { induction l as [|x l IH]; intros acc; simpl; [by rewrite app_nil_r|].
    rewrite IH, insert_desc_perm. apply Permutation_middle. }
  apply Hgen.
Qed.

Lemma insert_desc_head (x y : string * R) (l : list (string * R)) :
  (snd x <= snd y)%R ->
  match l with [] => True | z :: _ => (snd z <= snd y)%R end ->
  match insert_desc x l with [] => True | z :: _ => (snd z <= snd y)%R end.
Proof.
  intros Hxy Hl. destruct l as [|z l]; simpl; [done|].
  destruct (Rlt_dec (snd z) (snd x)); done.
Qed.

Lemma insert_desc_descending x l : descending l -> descending (insert_desc x l).
Proof.
  induction l as [|y l IH]; intros Hl; simpl; [done|].
  destruct (Rlt_dec (snd y) (snd x)) as [Hlt|Hge].
  - simpl. split; [lra|done].
  - destruct Hl as [Hhd Hl]. split; [|by apply IH].
    apply insert_desc_head; [lra|done].
Qed.

Lemma sort_desc_descending l : descending (sort_desc l).
Proof.
  unfold sort_desc.
  assert (Hgen : forall acc, descending acc -> descending (foldl (fun acc x => insert_desc x acc) acc l)).
  { induction l as [|x l IH]; intros acc Hacc; simpl; [done|].
    apply IH, insert_desc_descending, Hacc. }
  by apply Hgen.
Qed.

Lemma take_descending k l : descending l -> descending (take k l).
Proof.
  revert k; induction l as [|x l IH]; intros k Hl; destruct k as [|k]; simpl; try done.
  destruct Hl as [Hhd Hl]. split; [|by apply IH].
  destruct l as [|y l]; destruct k; simpl; done.
Qed.

Lemma mapM_score_ok ctx (cands : list string) s :
  wf s ->
  exists scored, mapM (fun w => p ← get_word_probability ctx w; mret (w, p)) cands s = inr (scored, s) /\
                 map fst scored = cands /\
                 forall w r, In (w, r) scored -> get_word_probability ctx w s = inr (r, s).
Proof.
  intros Hwf. induction cands as [|w cands IH].
  - exists []. done.
  - destruct IH as (scored & E & Hf & Hsc).
    destruct (get_word_probability_ok ctx w s Hwf) as [r Hr].
    exists ((w, r) :: scored). simpl. unfold mbind at 1, M_bind at 1.
    unfold mbind at 1, M_bind at 1. rewrite Hr. unfold mret at 1, M_ret at 1.
    unfold mbind at 1, M_bind at 1. rewrite E. split; [reflexivity|]. simpl. rewrite Hf.
    split; [done|]. intros w' r' [Heq|Hin]; [injection Heq as <- <-; done|by apply Hsc].
Qed.

(** The result of [predict_top_words] in a well-formed model. *)
Lemma predict_top_words_result prefix k s :
  wf s ->
  exists scored,
    map fst scored = filter (fun w => startswith w (py_lower prefix) = true) (words s) /\
    (forall w r, In (w, r) scored -> get_word_probability (py_lower prefix) w s = inr (r, s)) /\
    predict_top_words prefix k s = inr (py_take (sort_desc scored) k, s).
Proof.
  intros Hwf. unfold predict_top_words.
  destruct (mapM_score_ok (py_lower prefix) (filter (fun w => startswith w (py_lower prefix) = true) (words s)) s Hwf)
    as (scored & E & Hf & Hsc).
  exists scored. split; [done|]. split; [done|].
  unfold get_self, mbind at 1, M_bind at 1. unfold mbind at 1, M_bind at 1. rewrite E. reflexivity.
Qed.

(** ** Sum of the smoothed probabilities over the 27 symbols *)

Lemma Qsum_smoothed (L : list ascii) (inner : gmap ascii Z) (T : Q) :
  ~ (T == 0)%Q ->
  (Qsum (map (fun c => (inject_Z (default 0%Z (inner !! c)) + alpha) / T) L) ==
   (inject_Z (sum_counts L inner) + inject_Z (Z.of_nat (length L)) * alpha) / T)%Q.
Proof.
  intros HT. induction L as [|c L IH]; simpl.
  - field. done.
  - rewrite IH. rewrite Nat2Z.inj_succ, <- Z.add_1_r, !inject_Z_plus. field. done.
Qed.

Lemma alphabet_NoDup : NoDup alphabet.
Proof. apply (bool_decide_eq_true_1 (NoDup alphabet)). vm_compute. reflexivity. Qed.

Lemma char_prob_sum s ctx :
  wf s ->
  (Qsum (map (fun c => value_of 0%Q (get_char_probability ctx c s)) alphabet) <= 1)%Q /\
  (selected_next_chars_in_alphabet s ctx = true ->
   Qsum (map (fun c => value_of 0%Q (get_char_probability ctx c s)) alphabet) == 1)%Q.
Proof.
  intros Hwf.
  set (orders := py_range_down (Z.min (str_len ctx + 1) (n s)) 0).
  assert (Hg : forall c, get_char_probability ctx c s = gcp_loop orders ctx c s) by reflexivity.
  pose proof (gcp_loop_selected orders ctx s Hwf) as Hsel.
  assert (Hord : forall j, In j orders -> 1 <= j <= n s)
    by (intros j Hj; apply in_py_range_down in Hj; lia).
  specialize (Hsel Hord).
  unfold selected_next_chars_in_alphabet. fold orders.
  destruct (selected_counts s orders ctx) as [inner|].
  - destruct Hsel as (t & Hsum & Ht1 & Hnn & H).
    rewrite (map_ext _ (fun c => ((inject_Z (default 0%Z (inner !! c)) + alpha) /
                                  (inject_Z t + alpha * vocab_size))%Q)) by (intros c; by rewrite Hg, H).
    assert (HT : (0 < inject_Z t + alpha * vocab_size)%Q) by (unfold Qlt; simpl; lia).
    assert (HT0 : ~ (inject_Z t + alpha * vocab_size == 0)%Q).
    { intros E. rewrite E in HT. by apply (Qlt_irrefl 0). }
    rewrite Qsum_smoothed by done.
    assert (Hlen : (inject_Z (Z.of_nat (length alphabet)) * alpha == alpha * vocab_size)%Q) by reflexivity.
    rewrite Hlen. split.
    + apply Qle_shift_div_r; [done|]. rewrite Qmult_1_l.
      apply Qplus_le_l. rewrite <- Zle_Qle. subst t.
      apply sum_counts_le; [apply alphabet_NoDup|done].
    + intros Hin. rewrite (sum_counts_eq alphabet inner alphabet_NoDup).
      * rewrite <- Hsum. field. done.
      * intros c v Hcv. apply forallb_forall with (x := (c, v)) in Hin.
        -- by apply bool_decide_eq_true_1 in Hin.
        -- apply list_elem_of_In, elem_of_map_to_list. done.
  - rewrite (map_ext _ (fun _ => (1 / 27)%Q)) by (intros c; by rewrite Hg, Hsel).
    split; [|intros _]; vm_compute; done.
Qed.

(** ** The empty corpus *)

Lemma forM_const {A} (l : list A) (f : A -> M unit) s :
  (forall x, In x l -> f x s = inr (tt, s)) -> forM l f s = inr (tt, s).
Proof.
  intros Hf. destruct (forM_inv (fun s' => s' = s) l f s) as (s' & E & ->); [|done|done].
  intros x s1 Hx ->. exists s. split; [by apply Hf|done].
Qed.

Lemma train_empty s : _train "" s = inr (tt, s).
Proof.
  unfold _train, get_self, mbind, M_bind. apply forM_const.
  intros i Hi. apply in_py_range in Hi. unfold str_len in Hi. simpl in Hi.
  unfold py_range. replace (Z.to_nat (n s + 1 - 1)) with 0%nat by lia. reflexivity.
Qed.

Lemma tokens_of_empty st wt n0 :
  (forall sentence, In sentence (st ""%string) -> wt sentence = []) ->
  tokens_of st wt "" n0 = [].
Proof.
  intros H. unfold tokens_of. change (normalize "") with ""%string.
  induction (st ""%string) as [|sentence l IH]; simpl; [done|].
  rewrite H by (left; done). apply IH. intros x Hx. apply H. right; done.
Qed.

Lemma no_order_matches_in_empty_tables s ctx :
  wf s -> Forall (fun cm => cm = ∅) (counts s) ->
  forall c, get_char_probability ctx c s = inr ((1 / 27)%Q, s).
Proof.
  intros Hwf Hempty. destruct (get_char_probability_cases ctx s Hwf)
    as [H|(j & cm & tm & inner & t & Hj & Hcm & Htm & Hi & _)]; [done|].
  rewrite Forall_lookup in Hempty. apply Hempty in Hcm. subst cm. by rewrite lookup_empty in Hi.
Qed.

(** * Properties of the model *)

(** ** Character probabilities *)

(** C1 (code_bug): the fallback at order 1 does not use the empty suffix.
    With [n = 2] and corpus ["ab"], the context ["z"] is not a key of the
    order-2 table.  At order 1 the code takes [context[-(1-1):]], that is
    [context[-0:]], the whole context ["z"] rather than its suffix of
    length 0, so no order matches and [1/27] is returned, although the
    empty context is observed at order 1 (total 7, one ['a']), whose
    smoothed estimate [(1 + 0.01) / (7 + 0.27)] is a different value. *)
Lemma get_char_probability_order1_uses_whole_context :
  build "ab" 2 = inr (built "ab" 2) /\
  py_slice_from "z" (- (1 - 1)) = "z"%string /\
  (counts (built "ab" 2) !! 2%nat ≫= lookup "z"%string) = None /\
  (counts (built "ab" 2) !! 1%nat ≫= lookup "z"%string) = None /\
  (contexts (built "ab" 2) !! 1%nat ≫= lookup ""%string) = Some 7 /\
  ((counts (built "ab" 2) !! 1%nat ≫= lookup ""%string) ≫= lookup "a"%char) = Some 1 /\
  get_char_probability "z" "a" (built "ab" 2) = inr ((1 / 27)%Q, built "ab" 2) /\
  ~ ((1 / 27) == (inject_Z 1 + alpha) / (inject_Z 7 + alpha * vocab_size))%Q.
Proof.
  split_and!; try (vm_compute; reflexivity).
  vm_compute. discriminate.
Qed.

(** C3 (counterexample): no [InvalidOrder] check exists; construction with
    [n = 0] or [n = -1] returns a model, whose character queries all
    answer [1/27]. *)
Lemma init_accepts_nonpositive_order :
  build "ab" 0 = inr (built "ab" 0) /\ n (built "ab" 0) = 0 /\
  get_char_probability "a" "a" (built "ab" 0) = inr ((1 / 27)%Q, built "ab" 0) /\
  build "ab" (-1) = inr (built "ab" (-1)) /\ n (built "ab" (-1)) = -1.
Proof. split_and!; vm_compute; reflexivity. Qed.

(** C3 (amended): construction never fails: for every corpus and every
    integer [n], [n <= 0] included, it returns a model of order [n].  When
    [n <= 0] the loop [range(max_order, 0, -1)] of [get_char_probability]
    is empty, so every character query answers [1/27]. *)
Theorem init_never_fails st wt corpus n0 :
  exists s, NgramCharacterModel_init st wt corpus n0 = inr s /\ n s = n0 /\
    (n0 <= 0 -> forall ctx c, get_char_probability ctx c s = inr ((1 / 27)%Q, s)).
Proof.
  destruct (init_ok st wt corpus n0) as (s & E & _ & Hn & _). exists s.
  split; [exact E|]. split; [exact Hn|]. intros Hle ctx c.
  unfold get_char_probability, get_self, mbind, M_bind.
  destruct (py_range_down (Z.min (str_len ctx + 1) (n s)) 0) as [|j rest] eqn:Er; [reflexivity|].
  exfalso. assert (Hj : In j (py_range_down (Z.min (str_len ctx + 1) (n s)) 0)) by (rewrite Er; left; done).
  apply in_py_range_down in Hj. lia.
Qed.

Lemma init_never_fails_witness :
  exists s, NgramCharacterModel_init sent_tokenize_plain word_tokenize_plain "ab ac" 0 = inr s /\ n s = 0 /\
    get_char_probability "ab" "b" s = inr ((1 / 27)%Q, s).
Proof.
  destruct (init_never_fails sent_tokenize_plain word_tokenize_plain "ab ac" 0) as (s & E & Hn & H).
  exists s. split; [exact E|]. split; [exact Hn|]. apply H. lia.
Defined.

(** C4: in every constructed model (any corpus, the empty one included),
    [get_char_probability(context, char)] returns a value in (0, 1]. *)
Theorem get_char_probability_in_unit_interval st wt corpus n0 s ctx c :
  NgramCharacterModel_init st wt corpus n0 = inr s ->
  exists p, get_char_probability ctx c s = inr (p, s) /\ (0 < p)%Q /\ (p <= 1)%Q.
Proof.
  intros E. destruct (init_ok st wt corpus n0) as (s' & E' & Hwf & _).
  rewrite E in E'. injection E' as <-. by apply get_char_probability_ok.
Qed.

Lemma get_char_probability_in_unit_interval_witness :
  NgramCharacterModel_init sent_tokenize_plain word_tokenize_plain "" 2 = inr (built "" 2) /\
  exists p, get_char_probability "ab" "a" (built "" 2) = inr (p, built "" 2) /\ (0 < p)%Q /\ (p <= 1)%Q.
Proof.
  assert (E : NgramCharacterModel_init sent_tokenize_plain word_tokenize_plain "" 2 = inr (built "" 2))
    by (vm_compute; reflexivity).
  split; [exact E|]. exact (get_char_probability_in_unit_interval _ _ _ _ _ "ab" "a" E).
Defined.

(** C10: for every order [1 <= j <= n] of a constructed model, a context
    is a key of [counts[j]] exactly when it is a key of [contexts[j]];
    reading [contexts[j][ctx]] for such a key returns a total [t >= 1]
    without inserting anything, so the [if total_count] guard holds and the
    denominator [t + 0.01 * 27] is positive; and [get_char_probability]
    never raises. *)
Theorem counts_and_totals_share_keys st wt corpus n0 s j :
  NgramCharacterModel_init st wt corpus n0 = inr s -> 1 <= j <= n0 ->
  exists cm tm,
    counts s !! Z.to_nat j = Some cm /\ contexts s !! Z.to_nat j = Some tm /\
    (forall k, is_Some (cm !! k) <-> is_Some (tm !! k)) /\
    (forall k, is_Some (cm !! k) ->
       exists t, contexts_getitem j k s = inr (t, s) /\ 1 <= t /\ t <> 0 /\
                 (0 < inject_Z t + alpha * vocab_size)%Q) /\
    (forall ctx c, exists p, get_char_probability ctx c s = inr (p, s)).
Proof.
  intros E Hj. destruct (init_ok st wt corpus n0) as (s' & E' & Hwf & Hn & _).
  rewrite E in E'. injection E' as <-.
  pose proof (wf_counts_len s Hwf). pose proof (wf_contexts_len s Hwf).
  destruct (lookup_lt_is_Some_2 (counts s) (Z.to_nat j)) as [cm Hcm]; [lia|].
  destruct (lookup_lt_is_Some_2 (contexts s) (Z.to_nat j)) as [tm Htm]; [lia|].
  pose proof (wf_tables s Hwf _ _ _ Hcm Htm) as Htab.
  exists cm, tm. split_and!; try done.
  - intros k. specialize (Htab k).
    destruct (cm !! k), (tm !! k); split; intros [? ?]; try done; eauto.
  - intros k [inner Hk]. specialize (Htab k). rewrite Hk in Htab.
    destruct (tm !! k) as [t|] eqn:Ht; [|done]. destruct Htab as (_ & Ht1 & _).
    exists t. split_and!; [|lia|lia|unfold Qlt; simpl; lia].
    apply (contexts_getitem_ok j k s tm t Hwf); [lia|done|done].
  - intros ctx c. destruct (get_char_probability_ok ctx c s Hwf) as (p & Hp & _). eauto.
Qed.

Lemma counts_and_totals_share_keys_witness :
  NgramCharacterModel_init sent_tokenize_plain word_tokenize_plain "ab" 2 = inr (built "ab" 2) /\
  1 <= 2 <= 2 /\
  exists cm tm,
    counts (built "ab" 2) !! Z.to_nat 2 = Some cm /\ contexts (built "ab" 2) !! Z.to_nat 2 = Some tm /\
    (forall k, is_Some (cm !! k) <-> is_Some (tm !! k)) /\
    (forall k, is_Some (cm !! k) ->
       exists t, contexts_getitem 2 k (built "ab" 2) = inr (t, built "ab" 2) /\ 1 <= t /\ t <> 0 /\
                 (0 < inject_Z t + alpha * vocab_size)%Q) /\
    (forall ctx c, exists p, get_char_probability ctx c (built "ab" 2) = inr (p, built "ab" 2)).
Proof.
  assert (E : NgramCharacterModel_init sent_tokenize_plain word_tokenize_plain "ab" 2 = inr (built "ab" 2))
    by (vm_compute; reflexivity).
  assert (Hj : 1 <= 2 <= 2) by lia.
  split; [exact E|]. split; [exact Hj|].
  exact (counts_and_totals_share_keys _ _ _ _ _ 2 E Hj).
Defined.

(** C2 (counterexample): the boundary markers ['^'] and ['$'] are characters
    of the training stream, so they take part of the mass of a context.
    With corpus ["a"] and [n = 2] the stream is ["^ ^ a $"]; after the
    context [" "] (of length [n - 1]) the characters ['^'] and ['a'] were
    observed, and the 27 probabilities sum to [127/227], far from 1. *)
Lemma char_prob_sum_below_one_after_space :
  build "a" 2 = inr (built "a" 2) /\ str_len " " >= n (built "a" 2) - 1 /\
  (Qsum (map (fun c => value_of 0%Q (get_char_probability " " c (built "a" 2))) alphabet) == 127 # 227)%Q.
Proof. split_and!; vm_compute; try reflexivity. discriminate. Qed.

(** C2 (amended): in every constructed model and for every context, the
    probabilities of the 27 symbols, computed exactly, sum to at most 1.
    They sum to exactly 1 when every character observed after the context
    that the lookup selects (the first order whose table has the context's
    slice) is a letter or a space, in particular when no order matches and
    each symbol gets [1/27]. *)
Theorem char_prob_sum_at_most_one st wt corpus n0 s ctx :
  NgramCharacterModel_init st wt corpus n0 = inr s ->
  (Qsum (map (fun c => value_of 0%Q (get_char_probability ctx c s)) alphabet) <= 1)%Q /\
  (selected_next_chars_in_alphabet s ctx = true ->
   Qsum (map (fun c => value_of 0%Q (get_char_probability ctx c s)) alphabet) == 1)%Q.
Proof.
  intros E. destruct (init_ok st wt corpus n0) as (s' & E' & Hwf & _).
  rewrite E in E'. injection E' as <-. by apply char_prob_sum.
Qed.

Lemma char_prob_sum_at_most_one_witness :
  NgramCharacterModel_init sent_tokenize_plain word_tokenize_plain "ab cd" 3 = inr (built "ab cd" 3) /\
  selected_next_chars_in_alphabet (built "ab cd" 3) "b " = true /\
  (Qsum (map (fun c => value_of 0%Q (get_char_probability "b " c (built "ab cd" 3))) alphabet) <= 1)%Q /\
  (Qsum (map (fun c => value_of 0%Q (get_char_probability "b " c (built "ab cd" 3))) alphabet) == 1)%Q.
Proof.
  assert (E : NgramCharacterModel_init sent_tokenize_plain word_tokenize_plain "ab cd" 3 = inr (built "ab cd" 3))
    by (vm_compute; reflexivity).
  assert (Hin : selected_next_chars_in_alphabet (built "ab cd" 3) "b " = true) by (vm_compute; reflexivity).
  split; [exact E|]. split; [exact Hin|].
  pose proof (char_prob_sum_at_most_one _ _ _ _ _ "b " E) as [Hle Heq].
  split; [exact Hle|exact (Heq Hin)].
Defined.

(** ** Word scores *)

(** C6 (code_bug): with [n = 1] the rolling context is not cut to length
    [n - 1 = 0].  [context[-min(len(context), n - 1):]] is
    [context[-0:]], the whole prefix.  For corpus ["a"], prefix ["a"] and
    word ["aa"], the code scores the character ['a'] under the context
    ["a"] (probability [1/27], no order matches) instead of the empty
    context (probability [(1 + 0.01) / (5 + 0.27)]), and the score
    differs from the formula of the claim. *)
Lemma get_word_probability_rolling_context_order1 :
  build "a" 1 = inr (built "a" 1) /\
  py_slice_from "a" (- Z.min (str_len "a") (n (built "a" 1) - 1)) = "a"%string /\
  value_of 0%Q (get_char_probability "a" "a" (built "a" 1)) = (1 # 27)%Q /\
  value_of 0%Q (get_char_probability "" "a" (built "a" 1)) = (10100 # 52700)%Q /\
  get_word_probability "a" "aa" (built "a" 1) =
    inr ((exp (0 + ln (Q2R (1 # 27))) * (1 + ln (1 + IZR 0) / 10) * (1 / (1 + 1 / 10 * IZR 1)))%R,
         built "a" 1) /\
  (exp (0 + ln (Q2R (1 # 27))) * (1 + ln (1 + IZR 0) / 10) * (1 / (1 + 1 / 10 * IZR 1)) <>
   exp (ln (Q2R (10100 # 52700))) * (1 + ln (1 + IZR 0) / 10) * (1 / (1 + 1 / 10 * IZR 1)))%R.
Proof.
  destruct (build_built "a" 1) as [E Hwf].
  split_and!; try (vm_compute; reflexivity).
  - assert (Hc : get_char_probability "a" "a" (built "a" 1) = inr ((1 # 27)%Q, built "a" 1))
      by (vm_compute; reflexivity).
    apply get_word_probability_value; [done|reflexivity|].
    replace (list_ascii_of_string (py_slice_from "aa" (str_len "a"))) with ["a"%char] by reflexivity.
    replace (py_slice_from "a" (- Z.min (str_len "a") (n (built "a" 1) - 1))) with "a"%string
      by (vm_compute; reflexivity).
    rewrite (gwp_loop_cons_pos "a" [] "a" 0%R (built "a" 1) (1 # 27) Hc) by reflexivity.
    reflexivity.
  - assert (H1 : (0 < Q2R (1 # 27))%R) by (apply Q2R_pos; reflexivity).
    rewrite Rplus_0_l, !exp_ln by (apply Q2R_pos; reflexivity).
    rewrite Rplus_0_r, ln_1. unfold Q2R. simpl. lra.
Qed.

(** ** Ranking *)

(** C5 (counterexample): [top_k] is used as a Python slice bound, so a
    negative [k] drops entries from the end instead of bounding the
    length by [k]: with corpus ["ab ac"], [n = 2], prefix ["a"] and
    [k = -1], one of the two candidates is returned. *)
Lemma predict_top_words_negative_k :
  build "ab ac" 2 = inr (built "ab ac" 2) /\
  exists res, predict_top_words "a" (-1) (built "ab ac" 2) = inr (res, built "ab ac" 2) /\
              length res = 1%nat.
Proof.
  destruct (build_built "ab ac" 2) as [E Hwf].
  split; [exact E|].
  destruct (predict_top_words_result "a" (-1) _ Hwf) as (scored & Hf & _ & Hp).
  eexists. split; [exact Hp|].
  assert (Hc : filter (fun w => startswith w (py_lower "a") = true) (words (built "ab ac" 2)) = ["ac"; "ab"]%string)
    by (vm_compute; reflexivity).
  rewrite Hc in Hf. apply (f_equal length) in Hf. rewrite length_map in Hf.
  unfold py_take. rewrite length_take, (Permutation_length (sort_desc_perm scored)), Hf. reflexivity.
Qed.

(** C5 (amended): in every constructed model, [predict_top_words(prefix, k)]
    returns without error and without changing the model a list whose
    length is that of the slice [[:k]] of the ranked candidates (so at
    most [k] for [k >= 0]; for [k < 0] the last [-k] entries are
    dropped), with scores in non-increasing order; each entry is a
    vocabulary word starting with the lower-cased prefix, paired with its
    [get_word_probability] score; with no such word the result is empty. *)
Theorem predict_top_words_ranked st wt corpus n0 s prefix k :
  NgramCharacterModel_init st wt corpus n0 = inr s ->
  exists res, predict_top_words prefix k s = inr (res, s) /\
    length res = Z.to_nat (py_bound (Z.of_nat (length
                   (filter (fun w => startswith w (py_lower prefix) = true) (words s)))) k) /\
    (0 <= k -> Z.of_nat (length res) <= k) /\
    descending res /\
    (forall w r, In (w, r) res ->
       In w (words s) /\ startswith w (py_lower prefix) = true /\
       get_word_probability (py_lower prefix) w s = inr (r, s)) /\
    ((forall w, In w (words s) -> startswith w (py_lower prefix) = false) -> res = []).
Proof.
  intros E. destruct (init_ok st wt corpus n0) as (s' & E' & Hwf & _).
  rewrite E in E'. injection E' as <-.
  destruct (predict_top_words_result prefix k s Hwf) as (scored & Hf & Hsc & Hp).
  exists (py_take (sort_desc scored) k). split; [exact Hp|].
  assert (Hlen : length (sort_desc scored) =
                 length (filter (fun w => startswith w (py_lower prefix) = true) (words s))).
  { by rewrite (Permutation_length (sort_desc_perm scored)), <- Hf, length_map. }
  assert (Hres : length (py_take (sort_desc scored) k) =
                 Z.to_nat (py_bound (Z.of_nat (length (filter (fun w => startswith w (py_lower prefix) = true) (words s)))) k)).
  { unfold py_take. rewrite length_take, Hlen. unfold py_bound.
    destruct (Z.ltb_spec k 0); lia. }
  split_and!.
  - exact Hres.
  - intros Hk. rewrite Hres. unfold py_bound. destruct (Z.ltb_spec k 0); lia.
  - apply take_descending, sort_desc_descending.
  - intros w r Hin. unfold py_take in Hin.
    apply list_elem_of_In, subseteq_take, list_elem_of_In in Hin.
    apply (Permutation_in _ (sort_desc_perm scored)) in Hin.
    assert (Hw : In w (map fst scored)) by (apply in_map_iff; exists (w, r); done).
    rewrite Hf in Hw. apply list_elem_of_In, list_elem_of_filter in Hw as [Hpre Hw].
    split_and!; [by apply list_elem_of_In|done|by apply Hsc].
  - intros Hnone.
    destruct (filter (fun w => startswith w (py_lower prefix) = true) (words s)) as [|w0 l0] eqn:Ef.
    + destruct scored; [|done]. unfold py_take. apply take_nil.
    + assert (Hw0 : w0 ∈ filter (fun w => startswith w (py_lower prefix) = true) (words s))
        by (rewrite Ef; left).
      apply list_elem_of_filter in Hw0 as [Hpre Hw0].
      apply list_elem_of_In, Hnone in Hw0. congruence.
Qed.

Lemma predict_top_words_ranked_witness :
  NgramCharacterModel_init sent_tokenize_plain word_tokenize_plain "ab ac" 2 = inr (built "ab ac" 2) /\
  exists res, predict_top_words "A" 1 (built "ab ac" 2) = inr (res, built "ab ac" 2) /\
    length res = Z.to_nat (py_bound (Z.of_nat (length
                   (filter (fun w => startswith w (py_lower "A") = true) (words (built "ab ac" 2))))) 1) /\
    (0 <= 1 -> Z.of_nat (length res) <= 1) /\
    descending res /\
    (forall w r, In (w, r) res ->
       In w (words (built "ab ac" 2)) /\ startswith w (py_lower "A") = true /\
       get_word_probability (py_lower "A") w (built "ab ac" 2) = inr (r, built "ab ac" 2)) /\
    ((forall w, In w (words (built "ab ac" 2)) -> startswith w (py_lower "A") = false) -> res = []).
Proof.
  assert (E : NgramCharacterModel_init sent_tokenize_plain word_tokenize_plain "ab ac" 2 = inr (built "ab ac" 2))
    by (vm_compute; reflexivity).
  split; [exact E|]. exact (predict_top_words_ranked _ _ _ _ _ "A" 1 E).
Defined.

(** ** Queries and the model tables *)

(** Well-formedness gives the totals invariant at every order. *)
Lemma wf_totals s : wf s -> totals_invariant s.
Proof.
  intros Hwf j cm tm _ Hcm Htm ctx inner Hi.
  pose proof (wf_tables s Hwf _ cm tm Hcm Htm ctx) as Hk. rewrite Hi in Hk.
  destruct (tm !! ctx) as [t|]; [|done]. destruct Hk as [-> _]. reflexivity.
Qed.

(** C7: after construction, each of the three queries returns its value
    together with exactly the model it was given: no count table, total
    table, backoff weight, vocabulary entry or word frequency changes. *)
Theorem queries_leave_model_unchanged st wt corpus n0 s :
  NgramCharacterModel_init st wt corpus n0 = inr s ->
  (forall ctx c, exists p, get_char_probability ctx c s = inr (p, s)) /\
  (forall ctx w, exists r, get_word_probability ctx w s = inr (r, s)) /\
  (forall prefix k, exists res, predict_top_words prefix k s = inr (res, s)).
Proof.
  intros E. destruct (init_ok st wt corpus n0) as (s' & E' & Hwf & _).
  rewrite E in E'. injection E' as <-. split_and!.
  - intros ctx c. destruct (get_char_probability_ok ctx c s Hwf) as (p & Hp & _). eauto.
  - intros ctx w. apply get_word_probability_ok, Hwf.
  - intros prefix k. destruct (predict_top_words_result prefix k s Hwf) as (scored & _ & _ & Hp). eauto.
Qed.

Lemma queries_leave_model_unchanged_witness :
  NgramCharacterModel_init sent_tokenize_plain word_tokenize_plain "ab ac" 2 = inr (built "ab ac" 2) /\
  (forall ctx c, exists p, get_char_probability ctx c (built "ab ac" 2) = inr (p, built "ab ac" 2)) /\
  (forall ctx w, exists r, get_word_probability ctx w (built "ab ac" 2) = inr (r, built "ab ac" 2)) /\
  (forall prefix k, exists res, predict_top_words prefix k (built "ab ac" 2) = inr (res, built "ab ac" 2)).
Proof.
  assert (E : NgramCharacterModel_init sent_tokenize_plain word_tokenize_plain "ab ac" 2 = inr (built "ab ac" 2))
    by (vm_compute; reflexivity).
  split; [exact E|]. exact (queries_leave_model_unchanged _ _ _ _ _ E).
Defined.

(** C8: when the tokenizers find no word in the empty text (NLTK's
    [sent_tokenize("")] is empty), construction from [""] succeeds; all
    count and total tables are empty, the vocabulary and the frequency
    table are empty, every character query gives [1/27] and every
    [predict_top_words] query gives the empty list. *)
Theorem empty_corpus_degenerate_model st wt n0 :
  (forall sentence, In sentence (st ""%string) -> wt sentence = []) ->
  exists s, NgramCharacterModel_init st wt "" n0 = inr s /\
    Forall (fun cm => cm = ∅) (counts s) /\ Forall (fun tm => tm = ∅) (contexts s) /\
    words s = [] /\ word_freq s = ∅ /\
    (forall ctx c, get_char_probability ctx c s = inr ((1 / 27)%Q, s)) /\
    (forall prefix k, predict_top_words prefix k s = inr ([], s)).
Proof.
  intros Htok. pose proof (tokens_of_empty st wt n0 Htok) as Ht.
  destruct (init_ok st wt "" n0) as (s & E & Hwf & _ & Hw & Hf).
  rewrite Ht in Hw, Hf.
  revert E. unfold NgramCharacterModel_init. rewrite Ht. cbn [String.concat].
  set (s0 := mk_model n0 (replicate (Z.to_nat (n0 + 1)) ∅) (replicate (Z.to_nat (n0 + 1)) ∅)
               [] (vocabulary []) (counter [])).
  assert (Hwf0 : wf s0).
  { constructor; simpl; try apply length_replicate.
    - intros i cm tm Hcm Htm.
      apply lookup_replicate in Hcm as [-> _]. apply lookup_replicate in Htm as [-> _].
      apply table_ok_empty.
    - apply counter_nonneg. }
  destruct (backoff_ok s0 Hwf0) as (s2 & E2 & _ & _ & Hc2 & Ht2 & _ & _).
  unfold mbind at 1, M_bind at 1. rewrite train_empty, E2. intros E. injection E as <-.
  assert (Hc : Forall (fun cm => cm = ∅) (counts s2)).
  { rewrite Hc2. apply Forall_replicate. reflexivity. }
  assert (Hw0 : words s2 = []) by (rewrite Hw; reflexivity).
  exists s2. split_and!.
  - unfold mbind, M_bind. rewrite train_empty, E2. reflexivity.
  - exact Hc.
  - rewrite Ht2. apply Forall_replicate. reflexivity.
  - exact Hw0.
  - rewrite Hf. reflexivity.
  - intros ctx c. apply no_order_matches_in_empty_tables; done.
  - intros prefix k. destruct (predict_top_words_result prefix k s2 Hwf) as (scored & Hs & _ & Hp).
    rewrite Hw0 in Hs. destruct scored; [|done]. rewrite Hp. unfold py_take. cbn [sort_desc foldl]. rewrite take_nil. reflexivity.
Qed.

Lemma empty_corpus_degenerate_model_witness :
  (forall sentence, In sentence (sent_tokenize_plain ""%string) -> word_tokenize_plain sentence = []) /\
  exists s, NgramCharacterModel_init sent_tokenize_plain word_tokenize_plain "" 2 = inr s /\
    Forall (fun cm => cm = ∅) (counts s) /\ Forall (fun tm => tm = ∅) (contexts s) /\
    words s = [] /\ word_freq s = ∅ /\
    (forall ctx c, get_char_probability ctx c s = inr ((1 / 27)%Q, s)) /\
    (forall prefix k, predict_top_words prefix k s = inr ([], s)).
Proof.
  assert (H : forall sentence, In sentence (sent_tokenize_plain ""%string) -> word_tokenize_plain sentence = []).
  { intros sentence Hin. simpl in Hin. contradiction. }
  split; [exact H|]. exact (empty_corpus_degenerate_model _ _ 2 H).
Defined.

(** C9: after construction, at every order [1 <= j <= n] and for every
    context of the count table at order [j], the total table holds the
    sum of the counts of the next characters; every query returns a
    model for which this still holds. *)
Theorem totals_match_counts st wt corpus n0 s :
  NgramCharacterModel_init st wt corpus n0 = inr s ->
  totals_invariant s /\
  (forall ctx c p s', get_char_probability ctx c s = inr (p, s') -> totals_invariant s') /\
  (forall ctx w r s', get_word_probability ctx w s = inr (r, s') -> totals_invariant s') /\
  (forall prefix k res s', predict_top_words prefix k s = inr (res, s') -> totals_invariant s').
Proof.
  intros E. destruct (init_ok st wt corpus n0) as (s0 & E' & Hwf & _).
  rewrite E in E'. injection E' as <-. pose proof (wf_totals s Hwf) as Ht.
  split_and!; [exact Ht| | |].
  - intros ctx c p s' Hq. destruct (get_char_probability_ok ctx c s Hwf) as (p' & Hp & _).
    rewrite Hp in Hq. injection Hq as _ <-. exact Ht.
  - intros ctx w r s' Hq. destruct (get_word_probability_ok ctx w s Hwf) as (r' & Hr).
    rewrite Hr in Hq. injection Hq as _ <-. exact Ht.
  - intros prefix k res s' Hq. destruct (predict_top_words_result prefix k s Hwf) as (sc & _ & _ & Hp).
    rewrite Hp in Hq. injection Hq as _ <-. exact Ht.
Qed.

Lemma totals_match_counts_witness :
  NgramCharacterModel_init sent_tokenize_plain word_tokenize_plain "ab ac" 2 = inr (built "ab ac" 2) /\
  totals_invariant (built "ab ac" 2) /\
  (forall ctx c p s', get_char_probability ctx c (built "ab ac" 2) = inr (p, s') -> totals_invariant s') /\
  (forall ctx w r s', get_word_probability ctx w (built "ab ac" 2) = inr (r, s') -> totals_invariant s') /\
  (forall prefix k res s', predict_top_words prefix k (built "ab ac" 2) = inr (res, s') -> totals_invariant s').
Proof.
  assert (E : NgramCharacterModel_init sent_tokenize_plain word_tokenize_plain "ab ac" 2 = inr (built "ab ac" 2))
    by (vm_compute; reflexivity).
  split; [exact E|]. exact (totals_match_counts _ _ _ _ _ E).
Defined.

(** * Further properties of the interface and the model *)

Open Scope Z_scope.

Lemma py_bound_in L c : 0 <= c <= L -> py_bound L c = c.
Proof. intros H. unfold py_bound. destruct (Z.ltb_spec c 0); lia. Qed.

Lemma lslice_take_drop {A} (l : list A) a b :
  0 <= a <= b -> b <= Z.of_nat (length l) ->
  lslice l a b = take (Z.to_nat (b - a)) (drop (Z.to_nat a) l).
Proof.
  intros Hab Hb. unfold lslice. rewrite !py_bound_in by lia. reflexivity.
Qed.

Lemma lslice_to_take {A} (l : list A) c :
  0 <= c <= Z.of_nat (length l) -> lslice_to l c = take (Z.to_nat c) l.
Proof.
  intros Hc. unfold lslice_to. rewrite lslice_take_drop by lia. rewrite drop_0. f_equal. lia.
Qed.

Lemma lslice_from_drop {A} (l : list A) c :
  0 <= c <= Z.of_nat (length l) -> lslice_from l c = drop (Z.to_nat c) l.
Proof.
  intros Hc. unfold lslice_from. rewrite lslice_take_drop by lia.
  rewrite take_ge; [done|]. rewrite length_drop. lia.
Qed.

Lemma star_cands_bounds l p q :
  In q (star_cands l p) ->
  (p <= q <= p + length l)%nat /\ (forall k c, (k < q - p)%nat -> l !! k = Some c -> is_ws c = false) /\
  (forall k, (k < q - p)%nat -> is_Some (l !! k)).
Proof.
  revert p; induction l as [|c l IH]; intros p Hq; simpl in Hq.
  - destruct Hq as [<-|[]]. simpl. split; [lia|]. split; intros; lia.
  - destruct (is_ws c) eqn:Ec.
    + destruct Hq as [<-|[]]. simpl. split; [lia|]. split; intros; lia.
    + apply in_app_or in Hq as [Hq|[<-|[]]].
      * destruct (IH (S p) Hq) as (Hb & Hw & Hs). simpl. split; [lia|]. split.
        -- intros [|k] c' Hk Hc'; simpl in Hc'; [congruence|]. apply (Hw k); [lia|done].
        -- intros [|k] Hk; simpl; [eauto|]. apply Hs. lia.
      * simpl. split; [lia|]. split; intros; lia.
Qed.

Lemma star_cands_nonws l p :
  Forall (fun c => is_ws c = false) l -> exists rest, star_cands l p = (p + length l)%nat :: rest.
Proof.
  revert p; induction l as [|c l IH]; intros p Hl; simpl.
  - exists []. f_equal. lia.
  - inversion Hl as [|? ? Hc Hl']; subst. rewrite Hc.
    destruct (IH (S p) Hl') as [rest ->]. eexists. simpl. f_equal. lia.
Qed.

Lemma find_none_all {A} (f : A -> bool) l :
  (forall x, In x l -> f x = false) -> find f l = None.
Proof.
  induction l as [|x l IH]; intros H; simpl; [done|].
  rewrite H by (left; done). apply IH. intros y Hy. apply H. right; done.
Qed.

(** Start positions before the last word: no candidate end reaches past the
    whitespace that ends [p]. *)
Lemma cands_before_ws p c r i q :
  is_ws c = true -> (i <= length p)%nat ->
  In q (star_cands (drop i (p ++ [c] ++ r)) i) -> (q <= length p)%nat.
Proof.
  intros Hc Hi Hq. apply star_cands_bounds in Hq as (Hb & Hw & Hs).
  destruct (decide (q <= length p)%nat) as [|Hn]; [done|exfalso].
  assert (Hk : (length p - i < q - i)%nat) by lia.
  assert (Hl : drop i (p ++ [c] ++ r) !! (length p - i)%nat = Some c).
  { rewrite lookup_drop. replace (i + (length p - i))%nat with (length p + 0)%nat by lia.
    rewrite lookup_app_r by lia. replace (length p + 0 - length p)%nat with 0%nat by lia. done. }
  specialize (Hw _ _ Hk Hl). congruence.
Qed.

Lemma star_cands_run v r p :
  Forall (fun c => is_ws c = false) v ->
  (r = [] \/ exists c r', r = c :: r' /\ is_ws c = true) ->
  exists rest, star_cands (v ++ r) p = (p + length v)%nat :: rest.
Proof.
  revert p; induction v as [|c v IH]; intros p Hv Hr; simpl.
  - destruct Hr as [->|(c & r' & -> & Hc)]; simpl; [|rewrite Hc]; exists []; f_equal; lia.
  - inversion Hv as [|? ? Hc Hv']; subst. rewrite Hc.
    destruct (IH (S p) Hv' Hr) as [rest ->]. eexists. simpl. f_equal. lia.
Qed.

Lemma search_from_seq t a m k q :
  (a <= k < a + m)%nat -> (forall i, (a <= i < k)%nat -> match_at t i = None) ->
  match_at t k = Some q -> search_from t (seq a m) = Some (k, q).
Proof.
  revert a; induction m as [|m IH]; intros a Hk Hb Hm; [lia|]. simpl.
  destruct (decide (a = k)) as [->|Hne]; [by rewrite Hm|].
  rewrite Hb by lia. apply IH; [lia| |done]. intros i Hi. apply Hb. lia.
Qed.

(** No match starts before the whitespace that ends [p ++ [c]], unless the
    end can be just before a final newline. *)
Lemma match_at_before p c r i :
  is_ws c = true -> (i <= length p)%nat ->
  ~ (r = [] /\ c = "010"%char) ->
  match_at (p ++ [c] ++ r) i = None.
Proof.
  intros Hc Hi Hnl. unfold match_at. apply find_none_all. intros q Hq.
  pose proof (cands_before_ws p c r i q Hc Hi Hq) as Hqp.
  unfold dollar.
  destruct (Nat.eqb_spec q (length (p ++ [c] ++ r))) as [E1|_].
  { rewrite !length_app in E1. simpl in E1. lia. }
  destruct (Nat.eqb_spec (S q) (length (p ++ [c] ++ r))) as [E2|_]; [|reflexivity].
  rewrite !length_app in E2. simpl in E2.
  assert (Hr : r = []) by (destruct r; simpl in E2; [done|lia]). subst r.
  assert (q = length p) by (simpl in E2; lia). subst q. simpl.
  apply bool_decide_eq_false. rewrite lookup_app_r by lia. rewrite Nat.sub_diag. simpl.
  intros [= ->]. tauto.
Qed.

Lemma re_search_last_word p w :
  Forall (fun c => is_ws c = false) w ->
  (p = [] \/ exists p' c, p = p' ++ [c] /\ is_ws c = true) ->
  (w = [] -> last p <> Some "010"%char) ->
  re_search_word_end (p ++ w) = Some (length p, (length p + length w)%nat).
Proof.
  intros Hw Hp Hnl. unfold re_search_word_end.
  apply search_from_seq; [rewrite length_app; lia| |].
  - intros i Hi. destruct Hp as [->|(p' & c & -> & Hc)]; [simpl in Hi; lia|].
    rewrite <- app_assoc. apply match_at_before; [done| |].
    + rewrite length_app in Hi. simpl in Hi. lia.
    + intros [-> ->]. apply (Hnl eq_refl). rewrite last_app. done.
  - unfold match_at. rewrite drop_app_length.
    destruct (star_cands_run w [] (length p) Hw (or_introl eq_refl)) as [rest E].
    rewrite app_nil_r in E. rewrite E. simpl.
    unfold dollar. rewrite length_app, Nat.eqb_refl. reflexivity.
Qed.

Lemma re_search_before_newline q v :
  v <> [] -> Forall (fun c => is_ws c = false) v ->
  (q = [] \/ exists q' c, q = q' ++ [c] /\ is_ws c = true) ->
  re_search_word_end (q ++ v ++ ["010"%char]) = Some (length q, (length q + length v)%nat).
Proof.
  intros Hv0 Hv Hq. unfold re_search_word_end.
  apply search_from_seq; [rewrite !length_app; lia| |].
  - intros i Hi. destruct Hq as [->|(q' & c & -> & Hc)]; [simpl in Hi; lia|].
    rewrite <- app_assoc. apply match_at_before; [done| |].
    + rewrite length_app in Hi. simpl in Hi. lia.
    + intros [Hr _]. destruct v; simpl in Hr; [done|discriminate].
  - unfold match_at. rewrite drop_app_length.
    destruct (star_cands_run v ["010"%char] (length q) Hv) as [rest E].
    { right. exists "010"%char, []. split; [done|reflexivity]. }
    rewrite E. cbn [find]. unfold dollar.
    destruct (Nat.eqb_spec (length q + length v) (length (q ++ v ++ ["010"%char]))) as [E1|_].
    { rewrite !length_app in E1. simpl in E1. lia. }
    destruct (Nat.eqb_spec (S (length q + length v)) (length (q ++ v ++ ["010"%char]))) as [_|E2].
    2: { rewrite !length_app in E2. simpl in E2. lia. }
    rewrite bool_decide_eq_true_2; [done|].
    rewrite app_assoc, lookup_app_r by (rewrite length_app; lia).
    rewrite length_app, Nat.sub_diag. done.
Qed.

Lemma last_word_split (t : list ascii) :
  exists p w, t = p ++ w /\ Forall (fun c => is_ws c = false) w /\
              (p = [] \/ exists p' c, p = p' ++ [c] /\ is_ws c = true).
Proof.
  induction t as [|c t IH] using rev_ind.
  - exists [], []. split_and!; [done|constructor|left; done].
  - destruct (is_ws c) eqn:Ec.
    + exists (t ++ [c]), []. rewrite app_nil_r. split_and!; [done|constructor|].
      right. exists t, c. done.
    + destruct IH as (p & w & -> & Hw & Hp). exists p, (w ++ [c]).
      rewrite app_assoc. split_and!; [done| |done].
      apply Forall_app. split; [done|]. constructor; [done|constructor].
Qed.

Lemma search_from_some t starts i q :
  search_from t starts = Some (i, q) -> In i starts /\ match_at t i = Some q.
Proof.
  induction starts as [|j starts IH]; simpl; [done|].
  destruct (match_at t j) as [q'|] eqn:E.
  - intros [= -> ->]. split; [left|]; done.
  - intros H. destruct (IH H) as [Hi Hm]. split; [right|]; done.
Qed.

Lemma find_last_word_start_bounds text cursor :
  0 <= cursor <= Z.of_nat (length text) ->
  0 <= find_last_word_start text cursor <= cursor.
Proof.
  intros Hc. unfold find_last_word_start.
  destruct (Z.eqb_spec cursor 0) as [->|Hne]; [lia|].
  rewrite lslice_to_take by lia.
  set (t := take (Z.to_nat cursor) text).
  assert (Ht : length t = Z.to_nat cursor) by (unfold t; rewrite length_take; lia).
  destruct (re_search_word_end t) as [[i q]|] eqn:E; [|lia].
  apply search_from_some in E as [Hi Hm].
  apply in_seq in Hi. unfold match_at in Hm. apply find_some in Hm as [Hq _].
  apply star_cands_bounds in Hq as [Hb _]. rewrite length_drop in Hb. lia.
Qed.

Lemma find_last_word_start_split text cursor p w :
  0 <= cursor <= Z.of_nat (length text) ->
  lslice_to text cursor = p ++ w ->
  Forall (fun c => is_ws c = false) w ->
  (p = [] \/ exists p' c, p = p' ++ [c] /\ is_ws c = true) ->
  (w = [] -> last p <> Some "010"%char) ->
  find_last_word_start text cursor = Z.of_nat (length p).
Proof.
  intros Hc Ht Hw Hp Hnl.
  assert (Hl : length (p ++ w) = Z.to_nat cursor).
  { rewrite <- Ht, lslice_to_take, length_take by lia. lia. }
  rewrite length_app in Hl. unfold find_last_word_start.
  destruct (Z.eqb_spec cursor 0) as [->|Hne]; [lia|].
  rewrite Ht, (re_search_last_word p w Hw Hp Hnl). lia.
Qed.

Lemma lslice_of_split {A} (text p w : list A) cursor :
  0 <= cursor <= Z.of_nat (length text) ->
  lslice_to text cursor = p ++ w ->
  lslice text (Z.of_nat (length p)) cursor = w.
Proof.
  intros Hc Ht.
  assert (Hl : length (p ++ w) = Z.to_nat cursor).
  { rewrite <- Ht, lslice_to_take, length_take by lia. lia. }
  rewrite length_app in Hl. rewrite lslice_take_drop by lia.
  rewrite lslice_to_take in Ht by lia.
  rewrite take_drop_commute. replace (Z.to_nat (Z.of_nat (length p)) + Z.to_nat (cursor - Z.of_nat (length p)))%nat
    with (Z.to_nat cursor) by lia.
  rewrite Ht. replace (Z.to_nat (Z.of_nat (length p))) with (length p) by lia. apply drop_app_length.
Qed.

(** The current word is the run of non-whitespace characters that ends at the
    cursor: the text before the cursor is a prefix [p] followed by it, [p]
    is empty or ends in whitespace, and the word starts at [len p] (when the
    text before the cursor does not end in a newline). *)
Theorem get_current_word_is_last_word (u : ui) :
  0 <= cursor_pos u <= Z.of_nat (length (user_input u)) ->
  last (lslice_to (user_input u) (cursor_pos u)) <> Some "010"%char ->
  exists p, lslice_to (user_input u) (cursor_pos u) = p ++ get_current_word u /\
    Forall (fun c => is_ws c = false) (get_current_word u) /\
    (p = [] \/ exists p' c, p = p' ++ [c] /\ is_ws c = true) /\
    find_last_word_start (user_input u) (cursor_pos u) = Z.of_nat (length p).
Proof.
  intros Hc Hnl. destruct (last_word_split (lslice_to (user_input u) (cursor_pos u))) as (p & w & Ht & Hw & Hp).
  assert (Hf : find_last_word_start (user_input u) (cursor_pos u) = Z.of_nat (length p)).
  { apply (find_last_word_start_split _ _ p w); try done.
    intros ->. rewrite app_nil_r in Ht. rewrite <- Ht. exact Hnl. }
  exists p. unfold get_current_word. rewrite Hf, (lslice_of_split _ _ _ _ Hc Ht). auto.
Qed.

Lemma get_current_word_is_last_word_witness :
  let u := mk_ui [] 0 (list_ascii_of_string "ab cd") 5 0 [] 0 in
  (0 <= cursor_pos u <= Z.of_nat (length (user_input u))) /\
  last (lslice_to (user_input u) (cursor_pos u)) <> Some "010"%char /\
  exists p, lslice_to (user_input u) (cursor_pos u) = p ++ get_current_word u /\
    Forall (fun c => is_ws c = false) (get_current_word u) /\
    (p = [] \/ exists p' c, p = p' ++ [c] /\ is_ws c = true) /\
    find_last_word_start (user_input u) (cursor_pos u) = Z.of_nat (length p).
Proof.
  intros u.
  assert (H1 : 0 <= cursor_pos u <= Z.of_nat (length (user_input u))) by (simpl; lia).
  assert (H2 : last (lslice_to (user_input u) (cursor_pos u)) <> Some "010"%char) by (vm_compute; discriminate).
  split; [exact H1|]. split; [exact H2|]. exact (get_current_word_is_last_word u H1 H2).
Defined.

(** When the text before the cursor ends in a word [v] followed by a newline,
    the regular expression [[^\s]*$] matches the empty string before the
    newline, so [find_last_word_start] returns one past the start of [v] and
    the current word is [v] without its first character, plus the newline. *)
Theorem find_last_word_start_before_newline (u : ui) q v :
  0 <= cursor_pos u <= Z.of_nat (length (user_input u)) ->
  lslice_to (user_input u) (cursor_pos u) = q ++ v ++ ["010"%char] ->
  v <> [] -> Forall (fun c => is_ws c = false) v ->
  (q = [] \/ exists q' c, q = q' ++ [c] /\ is_ws c = true) ->
  find_last_word_start (user_input u) (cursor_pos u) = Z.of_nat (length q) + 1 /\
  get_current_word u = drop 1 v ++ ["010"%char].
Proof.
  intros Hc Ht Hv0 Hv Hq.
  assert (Hl : length (q ++ v ++ ["010"%char]) = Z.to_nat (cursor_pos u)).
  { rewrite <- Ht, lslice_to_take, length_take by lia. lia. }
  rewrite !length_app in Hl. simpl in Hl.
  destruct v as [|a v]; [done|]. simpl in Hl.
  assert (Hf : find_last_word_start (user_input u) (cursor_pos u) = Z.of_nat (length q) + 1).
  { unfold find_last_word_start. destruct (Z.eqb_spec (cursor_pos u) 0); [lia|].
    rewrite Ht, (re_search_before_newline q (a :: v)); [simpl; lia|done|done|done]. }
  split; [exact Hf|]. unfold get_current_word. rewrite Hf.
  replace (Z.of_nat (length q) + 1) with (Z.of_nat (length (q ++ [a]))) by (rewrite length_app; simpl; lia).
  apply (lslice_of_split _ _ _ _ Hc). rewrite Ht, <- app_assoc. reflexivity.
Qed.

Lemma find_last_word_start_before_newline_witness :
  let u := mk_ui [] 0 ["a"; "b"; "010"]%char 3 0 [] 0 in
  (0 <= cursor_pos u <= Z.of_nat (length (user_input u))) /\
  lslice_to (user_input u) (cursor_pos u) = [] ++ ["a"; "b"]%char ++ ["010"%char] /\
  ["a"; "b"]%char <> [] /\ Forall (fun c => is_ws c = false) ["a"; "b"]%char /\
  (@nil ascii = [] \/ exists q' c, @nil ascii = q' ++ [c] /\ is_ws c = true) /\
  find_last_word_start (user_input u) (cursor_pos u) = Z.of_nat (length (@nil ascii)) + 1 /\
  get_current_word u = drop 1 ["a"; "b"]%char ++ ["010"%char].
Proof.
  intros u.
  assert (H1 : 0 <= cursor_pos u <= Z.of_nat (length (user_input u))) by (simpl; lia).
  assert (H2 : lslice_to (user_input u) (cursor_pos u) = [] ++ ["a"; "b"]%char ++ ["010"%char])
    by (vm_compute; reflexivity).
  assert (H3 : ["a"; "b"]%char <> []) by discriminate.
  assert (H4 : Forall (fun c => is_ws c = false) ["a"; "b"]%char) by (repeat constructor).
  assert (H5 : ([] : list ascii) = [] \/ exists q' c, ([] : list ascii) = q' ++ [c] /\ is_ws c = true) by (left; reflexivity).
  split; [exact H1|]. split; [exact H2|]. split; [exact H3|]. split; [exact H4|]. split; [exact H5|].
  exact (find_last_word_start_before_newline u [] ["a"; "b"]%char H1 H2 H3 H4 H5).
Defined.

Lemma last_elem_of {A} (l : list A) x : last l = Some x -> x ∈ l.
Proof.
  induction l as [|y l IH]; simpl; [done|].
  destruct l as [|z l]; [intros [= ->]; left|intros H; right; auto].
Qed.

Lemma take_elem_of {A} (l : list A) k x : x ∈ take k l -> x ∈ l.
Proof. intros H. by apply (subseteq_take k l). Qed.

Lemma replace_current_word_spec (u : ui) (new_word : list ascii) :
  0 <= cursor_pos u <= Z.of_nat (length (user_input u)) ->
  "010"%char ∉ user_input u ->
  Forall (fun c => is_ws c = false) new_word ->
  exists p, lslice_to (user_input u) (cursor_pos u) = p ++ get_current_word u /\
    (p = [] \/ exists p' c, p = p' ++ [c] /\ is_ws c = true) /\ ("010"%char ∉ p) /\
    user_input (replace_current_word u new_word) = p ++ new_word ++ lslice_from (user_input u) (cursor_pos u) /\
    cursor_pos (replace_current_word u new_word) = Z.of_nat (length p + length new_word) /\
    get_current_word (replace_current_word u new_word) = new_word.
Proof.
  intros Hc Hnl Hnw.
  set (t := lslice_to (user_input u) (cursor_pos u)).
  assert (Ht : t = take (Z.to_nat (cursor_pos u)) (user_input u)) by (apply lslice_to_take; lia).
  destruct (last_word_split t) as (p & w & Hpw & Hw & Hp).
  assert (Hnot : forall x, x ∈ t -> x <> "010"%char).
  { intros x Hx ->. apply Hnl. rewrite Ht in Hx. by apply take_elem_of in Hx. }
  assert (Hlastp : last p <> Some "010"%char).
  { intros Hl. apply last_elem_of in Hl. apply (Hnot "010"%char); [|done].
    rewrite Hpw. apply elem_of_app. by left. }
  assert (Hf : find_last_word_start (user_input u) (cursor_pos u) = Z.of_nat (length p)).
  { apply (find_last_word_start_split _ _ p w); try done; intros _; exact Hlastp. }
  assert (Hlen : (length p + length w)%nat = Z.to_nat (cursor_pos u)).
  { rewrite <- length_app, <- Hpw, Ht, length_take. lia. }
  assert (Hcw : get_current_word u = w).
  { unfold get_current_word. rewrite Hf. apply (lslice_of_split _ _ _ _ Hc Hpw). }
  assert (Hpre : lslice_to (user_input u) (Z.of_nat (length p)) = p).
  { rewrite lslice_to_take by lia. replace (Z.to_nat (Z.of_nat (length p))) with (length p) by lia.
    replace (take (length p) (user_input u)) with (take (length p) t).
    - rewrite Hpw. apply take_app_length.
    - rewrite Ht, take_take. f_equal. lia. }
  exists p. rewrite Hcw. split; [done|]. split; [done|].
  split; [intros Hx; apply (Hnot "010"%char); [rewrite Hpw; apply elem_of_app; by left|done]|].
  unfold replace_current_word. rewrite Hf, Hpre. cbn [user_input cursor_pos set_input].
  split; [done|]. split; [lia|].
  set (rest := lslice_from (user_input u) (cursor_pos u)).
  assert (Hrest : length rest = (length (user_input u) - Z.to_nat (cursor_pos u))%nat).
  { unfold rest. rewrite lslice_from_drop, length_drop by lia. lia. }
  assert (Hc' : 0 <= Z.of_nat (length p) + Z.of_nat (length new_word) <=
                Z.of_nat (length (p ++ new_word ++ rest))).
  { rewrite !length_app. lia. }
  assert (Ht' : lslice_to (p ++ new_word ++ rest) (Z.of_nat (length p) + Z.of_nat (length new_word)) =
                p ++ new_word).
  { rewrite lslice_to_take by exact Hc'. rewrite app_assoc.
    replace (Z.to_nat (Z.of_nat (length p) + Z.of_nat (length new_word))) with (length (p ++ new_word))
      by (rewrite length_app; lia).
    apply take_app_length. }
  unfold get_current_word. cbn [user_input cursor_pos set_input].
  rewrite (find_last_word_start_split _ _ p new_word Hc' Ht' Hnw Hp (fun _ => Hlastp)).
  apply (lslice_of_split _ _ _ _ Hc' Ht').
Qed.

(** Replacing the current word by a word without whitespace keeps the text
    before the word and the text after the cursor, puts the cursor after the
    new word, and makes the new word the current word (text without
    newlines). *)
Theorem replace_current_word_round_trip (u : ui) (new_word : list ascii) :
  0 <= cursor_pos u <= Z.of_nat (length (user_input u)) ->
  "010"%char ∉ user_input u ->
  Forall (fun c => is_ws c = false) new_word ->
  exists p, lslice_to (user_input u) (cursor_pos u) = p ++ get_current_word u /\
    user_input (replace_current_word u new_word) = p ++ new_word ++ lslice_from (user_input u) (cursor_pos u) /\
    cursor_pos (replace_current_word u new_word) = Z.of_nat (length p + length new_word) /\
    get_current_word (replace_current_word u new_word) = new_word.
Proof.
  intros Hc Hnl Hnw.
  destruct (replace_current_word_spec u new_word Hc Hnl Hnw) as (p & H1 & _ & _ & H2).
  exists p. exact (conj H1 H2).
Qed.

Lemma replace_current_word_round_trip_witness :
  let u := mk_ui [] 0 (list_ascii_of_string "ab cd") 5 0 [] 0 in
  let new_word := list_ascii_of_string "cde" in
  (0 <= cursor_pos u <= Z.of_nat (length (user_input u))) /\
  ("010"%char ∉ user_input u) /\
  Forall (fun c => is_ws c = false) new_word /\
  exists p, lslice_to (user_input u) (cursor_pos u) = p ++ get_current_word u /\
    user_input (replace_current_word u new_word) = p ++ new_word ++ lslice_from (user_input u) (cursor_pos u) /\
    cursor_pos (replace_current_word u new_word) = Z.of_nat (length p + length new_word) /\
    get_current_word (replace_current_word u new_word) = new_word.
Proof.
  intros u new_word.
  assert (H1 : 0 <= cursor_pos u <= Z.of_nat (length (user_input u))) by (simpl; lia).
  assert (H2 : "010"%char ∉ user_input u) by (apply (bool_decide_unpack _); vm_compute; reflexivity).
  assert (H3 : Forall (fun c => is_ws c = false) new_word) by (repeat constructor).
  split; [exact H1|]. split; [exact H2|]. split; [exact H3|].
  exact (replace_current_word_round_trip u new_word H1 H2 H3).
Defined.



Lemma update_suggestions_ok ctx u s :
  wf s ->
  exists sg, update_suggestions ctx u s = inr (set_suggestions u sg 0, s) /\ (length sg <= 10)%nat /\
    Forall (fun w => In (string_of_list_ascii w) (words s) /\
                     startswith (string_of_list_ascii w) (py_lower (string_of_list_ascii ctx)) = true) sg.
Proof.
  intros Hwf.
  destruct (predict_top_words_result (string_of_list_ascii ctx) 10 s Hwf) as (scored & Hf & _ & Hp).
  exists (map (fun item => list_ascii_of_string item.1) (py_take (sort_desc scored) 10)).
  split; [|split].
  - unfold update_suggestions, mbind at 1, M_bind at 1. rewrite Hp. reflexivity.
  - rewrite length_map. unfold py_take. rewrite length_take. unfold py_bound. simpl. lia.
  - apply Forall_forall. intros w Hw. apply list_elem_of_In, in_map_iff in Hw as ([w0 r] & <- & Hin).
    simpl. rewrite string_of_list_ascii_of_string.
    unfold py_take in Hin. apply list_elem_of_In, subseteq_take, list_elem_of_In in Hin.
    apply (Permutation_in _ (sort_desc_perm scored)) in Hin.
    assert (Hw0 : In w0 (map fst scored)) by (apply in_map_iff; exists (w0, r); done).
    rewrite Hf in Hw0. apply list_elem_of_In, list_elem_of_filter in Hw0 as [Hpre Hw0].
    split; [by apply list_elem_of_In|done].
Qed.

Lemma update_suggestions_ui_ok ctx u s :
  wf s -> ui_ok u -> exists u', update_suggestions ctx u s = inr (u', s) /\ ui_ok u'.
Proof.
  intros Hwf Hu. destruct (update_suggestions_ok ctx u s Hwf) as (sg & E & Hl & _).
  exists (set_suggestions u sg 0). split; [done|]. ui_ok_solve.
Qed.

Lemma finalize_ui_ok u : ui_ok u -> ui_ok (finalize_current_word_stats u).
Proof.
  intros Hu. unfold finalize_current_word_stats.
  destruct (last _) as [lw|]; [|ui_ok_solve].
  destruct (Z.ltb_spec 0 (Z.of_nat (length (filter isalpha lw)))) as [Hl|Hl]; ui_ok_solve.
  apply Forall_app. split; [done|]. constructor; [simpl; lia|constructor].
Qed.

Lemma replace_ui_ok u w : ui_ok u -> ui_ok (replace_current_word u w).
Proof.
  intros Hu. pose proof Hu as (Hc & _).
  pose proof (find_last_word_start_bounds (user_input u) (cursor_pos u) Hc) as Hb.
  unfold replace_current_word.
  set (st := find_last_word_start (user_input u) (cursor_pos u)) in *.
  rewrite lslice_to_take, lslice_from_drop by lia.
  ui_ok_solve; rewrite !length_app, length_take, length_drop; lia.
Qed.

Lemma py_list_index_in {A} (l : list A) i :
  0 <= i < Z.of_nat (length l) -> exists x, py_list_index l i = inr x.
Proof.
  intros Hi. unfold py_list_index, py_index.
  replace (i <? 0) with false by lia.
  replace ((0 <=? i) && (i <? Z.of_nat (length l))) with true by lia.
  destruct (lookup_lt_is_Some_2 l (Z.to_nat i)) as [x Hx]; [lia|]. rewrite Hx. eauto.
Qed.

Lemma handle_input_ok u key s :
  wf s -> ui_ok u -> exists b u', handle_input u key s = inr ((b, u'), s) /\ ui_ok u'.
Proof.
  intros Hwf Hu. unfold handle_input.
  destruct (key =? KEY_RESIZE); [eauto|].
  destruct (key =? 27); [eauto|].
  destruct (key =? 9).
  { destruct (suggestions u) as [|w sg] eqn:Es; do 2 eexists; (split; [reflexivity|]);
      unfold ui_ok in *; simpl; rewrite ?Es in *; simpl in *;
      repeat match goal with H : _ /\ _ |- _ => destruct H end; split_and!; try lia; try done.
    all: try (right; apply Z.mod_pos_bound; lia); try (apply Z.mod_pos_bound; lia). }
  destruct (key =? 10).
  { assert (Hu1 : exists u1, (match suggestions u with
          | [] => mret u
          | _ => if current_suggestion_idx u <? Z.of_nat (length (suggestions u)) then
                   w ← lift (py_list_index (suggestions u) (current_suggestion_idx u));
                   mret (replace_current_word u w)
                 else mret u
          end : M ui) s = inr (u1, s) /\ ui_ok u1).
    { destruct (suggestions u) as [|w0 sg] eqn:Es; [eauto|].
      destruct (Z.ltb_spec (current_suggestion_idx u) (Z.of_nat (length (w0 :: sg)))) as [Hi|]; [|eauto].
      rewrite <- Es in Hi |- *.
      destruct (py_list_index_in (suggestions u) (current_suggestion_idx u)) as [w Hw];
        [pose proof Hu as (_ & Hi0 & _); lia|].
      unfold mbind, M_bind, lift. rewrite Hw. eexists. split; [reflexivity|]. by apply replace_ui_ok. }
    destruct Hu1 as (u1 & E1 & Hu1).
    unfold mbind at 1, M_bind at 1. rewrite E1. do 2 eexists. split; [reflexivity|].
    pose proof (finalize_ui_ok u1 Hu1) as Hf. clear Hu. ui_ok_solve. }
  destruct ((key =? KEY_BACKSPACE) || (key =? 127) || (key =? 8)).
  { destruct (Z.ltb_spec 0 (cursor_pos u)) as [Hc0|]; [|eauto].
    pose proof Hu as (Hc & _).
    destruct (py_list_index_in (user_input u) (cursor_pos u - 1)) as [ch Hch]; [lia|].
    unfold mbind at 1, M_bind at 1, lift. rewrite Hch.
    set (u1 := set_input u _ _).
    assert (Hu1 : ui_ok u1).
    { unfold u1. rewrite lslice_to_take, lslice_from_drop by lia.
      ui_ok_solve; rewrite length_app, length_take, length_drop; lia. }
    set (u2 := if isalpha ch && (0 <? current_word_keystrokes u1) then set_keystrokes u1 (current_word_keystrokes u1 - 1) else u1).
    assert (Hu2 : ui_ok u2).
    { unfold u2. destruct (isalpha ch); [|exact Hu1].
      destruct (Z.ltb_spec 0 (current_word_keystrokes u1)); [|exact Hu1].
      clear Hu. ui_ok_solve. }
    destruct (update_suggestions_ui_ok (get_current_word u2) u2 s Hwf Hu2) as (u3 & E3 & Hu3).
    unfold mret at 1, M_ret at 1. cbn beta iota. fold u2.
    unfold mbind at 1, M_bind at 1. rewrite E3. eauto. }
  destruct (key =? KEY_LEFT).
  { destruct (Z.ltb_spec 0 (cursor_pos u)) as [Hc0|]; [|eauto].
    set (u1 := set_input u _ _).
    assert (Hu1 : ui_ok u1) by (unfold u1; ui_ok_solve).
    destruct (update_suggestions_ui_ok (get_current_word u1) u1 s Hwf Hu1) as (u2 & E2 & Hu2).
    unfold mbind at 1, M_bind at 1. rewrite E2. eauto. }
  destruct (key =? KEY_RIGHT).
  { destruct (Z.ltb_spec (cursor_pos u) (Z.of_nat (length (user_input u)))) as [Hc0|]; [|eauto].
    set (u1 := set_input u _ _).
    assert (Hu1 : ui_ok u1) by (unfold u1; ui_ok_solve).
    destruct (update_suggestions_ui_ok (get_current_word u1) u1 s Hwf Hu1) as (u2 & E2 & Hu2).
    unfold mbind at 1, M_bind at 1. rewrite E2. eauto. }
  destruct ((32 <=? key) && (key <=? 126)); [|eauto].
  pose proof Hu as (Hc & _).
  set (ch := ascii_of_nat (Z.to_nat key)).
  set (u1 := set_input u _ _).
  assert (Hu1 : ui_ok u1).
  { unfold u1. rewrite lslice_to_take, lslice_from_drop by lia.
    ui_ok_solve; rewrite ?length_app, ?length_take, ?length_drop; simpl; rewrite ?length_drop; lia. }
  set (u2 := if isalpha ch then set_keystrokes u1 (current_word_keystrokes u1 + 1) else u1).
  assert (Hu2 : ui_ok u2).
  { unfold u2. destruct (isalpha ch); [|done]. clear Hu. ui_ok_solve. }
  set (u3 := if decide (ch = " "%char) then finalize_current_word_stats u2 else u2).
  assert (Hu3 : ui_ok u3).
  { unfold u3. destruct (decide _); [by apply finalize_ui_ok|done]. }
  destruct (update_suggestions_ui_ok (get_current_word u3) u3 s Hwf Hu3) as (u4 & E4 & Hu4).
  unfold mbind at 1, M_bind at 1. rewrite E4. eauto.
Qed.

Lemma split_aux_snoc_ws acc l c :
  is_ws c = true -> split_ws_aux acc (l ++ [c]) = split_ws_aux acc l.
Proof.
  intros Hc. revert acc; induction l as [|d l IH]; intros acc; simpl.
  - rewrite Hc. destruct acc; reflexivity.
  - destruct (is_ws d); [destruct acc; rewrite IH; reflexivity|apply IH].
Qed.

Lemma split_aux_app_ws acc x r :
  Forall (fun c => is_ws c = true) r -> split_ws_aux acc (x ++ r) = split_ws_aux acc x.
Proof.
  induction r as [|c r IH] using rev_ind; intros Hr; [by rewrite app_nil_r|].
  apply Forall_app in Hr as [Hr Hc]. inversion Hc; subst.
  rewrite app_assoc, split_aux_snoc_ws by done. by apply IH.
Qed.

Lemma split_aux_nonws acc w :
  Forall (fun c => is_ws c = false) w -> rev acc ++ w <> [] -> split_ws_aux acc w = [rev acc ++ w].
Proof.
  revert acc; induction w as [|c w IH]; intros acc Hw Hne; simpl.
  - rewrite app_nil_r in *. destruct acc; [done|reflexivity].
  - inversion Hw as [|? ? Hc Hw']; subst. rewrite Hc, IH; [|done|].
    + simpl. rewrite <- app_assoc. reflexivity.
    + simpl. rewrite <- app_assoc. simpl. destruct (rev acc); discriminate.
Qed.

Lemma split_aux_app_sep acc x c r :
  is_ws c = true -> split_ws_aux acc (x ++ c :: r) = split_ws_aux acc (x ++ [c]) ++ split_ws_aux [] r.
Proof.
  intros Hc. revert acc; induction x as [|d x IH]; intros acc; simpl.
  - rewrite Hc. destruct acc; reflexivity.
  - destruct (is_ws d); [destruct acc; rewrite IH; reflexivity|apply IH].
Qed.

Lemma split_drop_ws l : split_ws_aux [] (drop_ws l) = split_ws_aux [] l.
Proof.
  induction l as [|c l IH]; simpl; [done|]. destruct (is_ws c) eqn:Ec; [|simpl; rewrite Ec; reflexivity].
  rewrite IH. reflexivity.
Qed.

Lemma drop_ws_prefix m : exists r, m = r ++ drop_ws m /\ Forall (fun c => is_ws c = true) r.
Proof.
  induction m as [|c m IH]; simpl; [exists []; done|].
  destruct (is_ws c) eqn:Ec.
  - destruct IH as (r & Hm & Hr). exists (c :: r). split; [simpl; f_equal; done|by constructor].
  - exists []. done.
Qed.

Lemma py_split_strip l : py_split (py_strip l) = py_split l.
Proof.
  unfold py_split, py_strip.
  destruct (drop_ws_prefix (rev (drop_ws l))) as (r & Hm & Hr).
  assert (E : drop_ws l = rev (drop_ws (rev (drop_ws l))) ++ rev r).
  { rewrite <- (rev_involutive (drop_ws l)) at 1. rewrite Hm at 1. by rewrite rev_app_distr. }
  rewrite <- (split_drop_ws l).
  set (X := rev (drop_ws (rev (drop_ws l)))) in *. rewrite E. rewrite split_aux_app_ws; [reflexivity|].
  apply Forall_forall. intros x Hx. apply list_elem_of_In, in_rev, list_elem_of_In in Hx.
  by eapply Forall_forall in Hr.
Qed.

Lemma last_word_of_input p w :
  Forall (fun c => is_ws c = false) w -> w <> [] ->
  (p = [] \/ exists p' c, p = p' ++ [c] /\ is_ws c = true) ->
  last (py_split (py_strip (p ++ w))) = Some w /\
  last (py_split (py_strip (p ++ w ++ [" "%char]))) = Some w.
Proof.
  intros Hw Hne Hp.
  assert (E : last (py_split (p ++ w)) = Some w).
  { unfold py_split. destruct Hp as [->|(p' & c & -> & Hc)].
    - rewrite app_nil_l, split_aux_nonws by done. reflexivity.
    - rewrite <- app_assoc. simpl. rewrite split_aux_app_sep by done.
      rewrite (split_aux_nonws [] w Hw Hne), last_app. reflexivity. }
  rewrite !py_split_strip. split; [done|].
  unfold py_split in *. rewrite app_assoc, split_aux_snoc_ws by reflexivity. done.
Qed.

Lemma init_wf st wt corpus n0 s : NgramCharacterModel_init st wt corpus n0 = inr s -> wf s.
Proof.
  intros E. destruct (init_ok st wt corpus n0) as (s' & E' & Hwf & _).
  rewrite E in E'. by injection E' as ->.
Qed.

Lemma ui_init_ok : ui_ok ui_init.
Proof. ui_ok_solve. Qed.

Lemma run_keys_ok u keys s :
  wf s -> ui_ok u -> exists u', run_keys u keys s = inr (u', s) /\ ui_ok u'.
Proof.
  intros Hwf. revert u. induction keys as [|k ks IH]; intros u Hu; [eauto|].
  destruct (handle_input_ok u k s Hwf Hu) as (b & u1 & E1 & Hu1).
  cbn [run_keys]. unfold mbind at 1, M_bind at 1. rewrite E1. cbn beta iota.
  destruct b; [by apply IH|eauto].
Qed.

Lemma handle_tab u s :
  suggestions u <> [] ->
  handle_input u 9 s =
  inr ((true, mk_ui (suggestions u) ((current_suggestion_idx u + 1) mod Z.of_nat (length (suggestions u)))
                (user_input u) (cursor_pos u) (current_word_keystrokes u) (word_stats u) (tabKeyCount u + 1)), s).
Proof. intros Hs. unfold handle_input. simpl. destruct (suggestions u); [done|reflexivity]. Qed.

Lemma handle_enter u s :
  handle_input u 10 s =
  match (match suggestions u with
          | [] => mret u
          | _ => if current_suggestion_idx u <? Z.of_nat (length (suggestions u)) then
                   w ← lift (py_list_index (suggestions u) (current_suggestion_idx u));
                   mret (replace_current_word u w)
                 else mret u
          end : M ui) s with
  | inl e => inl e
  | inr (u1, s') => inr ((true, set_suggestions (finalize_current_word_stats u1) [] 0), s')
  end.
Proof. reflexivity. Qed.

Lemma handle_space u s :
  handle_input u 32 s =
  (let u1 := set_input u (lslice_to (user_input u) (cursor_pos u) ++ [" "%char] ++
                          lslice_from (user_input u) (cursor_pos u)) (cursor_pos u + 1) in
   let u3 := finalize_current_word_stats u1 in
   match update_suggestions (get_current_word u3) u3 s with
   | inl e => inl e
   | inr (u4, s') => inr ((true, u4), s')
   end).
Proof. reflexivity. Qed.

(** From a state satisfying [ui_ok], every key is handled without an
    exception, leaves the model unchanged and yields a state satisfying
    [ui_ok]. *)
Theorem handle_input_keeps_ui_ok st wt corpus n0 s u key :
  NgramCharacterModel_init st wt corpus n0 = inr s -> ui_ok u ->
  exists b u', handle_input u key s = inr ((b, u'), s) /\ ui_ok u'.
Proof. intros E Hu. exact (handle_input_ok u key s (init_wf _ _ _ _ _ E) Hu). Qed.

Lemma handle_input_keeps_ui_ok_witness :
  NgramCharacterModel_init sent_tokenize_plain word_tokenize_plain "ab ac" 2 = inr (built "ab ac" 2) /\
  ui_ok (mk_ui [] 0 (list_ascii_of_string "ab") 1 1 [] 0) /\
  exists b u', handle_input (mk_ui [] 0 (list_ascii_of_string "ab") 1 1 [] 0) 97 (built "ab ac" 2) =
               inr ((b, u'), built "ab ac" 2) /\ ui_ok u'.
Proof.
  assert (E : NgramCharacterModel_init sent_tokenize_plain word_tokenize_plain "ab ac" 2 = inr (built "ab ac" 2))
    by (vm_compute; reflexivity).
  assert (Hu : ui_ok (mk_ui [] 0 (list_ascii_of_string "ab") 1 1 [] 0)) by ui_ok_solve.
  split; [exact E|]. split; [exact Hu|].
  exact (handle_input_keeps_ui_ok _ _ _ _ _ _ 97 E Hu).
Defined.

(** Handling a sequence of keys with [handle_input], one after the other
    until one returns [False] as the loop of [run] does, started from the
    initial interface state, never raises in [handle_input] and never
    changes the model, whatever the keys.  The curses calls of that loop
    (drawing, [getch], resizing) are outside [run_keys]. *)
Theorem run_keys_from_start_never_fails st wt corpus n0 s keys :
  NgramCharacterModel_init st wt corpus n0 = inr s ->
  exists u', run_keys ui_init keys s = inr (u', s) /\ ui_ok u'.
Proof. intros E. exact (run_keys_ok ui_init keys s (init_wf _ _ _ _ _ E) ui_init_ok). Qed.

Lemma run_keys_from_start_never_fails_witness :
  NgramCharacterModel_init sent_tokenize_plain word_tokenize_plain "ab ac" 2 = inr (built "ab ac" 2) /\
  exists u', run_keys ui_init [97; 9; 10; 32; 263; 260; 261; 27] (built "ab ac" 2) = inr (u', built "ab ac" 2) /\
             ui_ok u'.
Proof.
  assert (E : NgramCharacterModel_init sent_tokenize_plain word_tokenize_plain "ab ac" 2 = inr (built "ab ac" 2))
    by (vm_compute; reflexivity).
  split; [exact E|]. exact (run_keys_from_start_never_fails _ _ _ _ _ _ E).
Defined.

(** Pressing Tab [m] times with a non-empty suggestion list advances the
    selected index by [m] modulo the number of suggestions, counts [m] Tab
    presses and changes nothing else. *)
Theorem tab_presses_cycle_suggestions u m s :
  suggestions u <> [] ->
  0 <= current_suggestion_idx u < Z.of_nat (length (suggestions u)) ->
  run_keys u (replicate m 9) s =
  inr (mk_ui (suggestions u)
             ((current_suggestion_idx u + Z.of_nat m) mod Z.of_nat (length (suggestions u)))
             (user_input u) (cursor_pos u) (current_word_keystrokes u) (word_stats u)
             (tabKeyCount u + Z.of_nat m), s).
Proof.
  revert u. induction m as [|m IH]; intros u Hs Hi.
  - destruct u as [sg i t c k ws tb]. simpl in *. rewrite Z.mod_small by lia.
    rewrite !Z.add_0_r. reflexivity.
  - cbn [replicate run_keys]. unfold mbind at 1, M_bind at 1. rewrite handle_tab by done.
    cbn beta iota. rewrite IH; cbn [suggestions current_suggestion_idx user_input cursor_pos
      current_word_keystrokes word_stats tabKeyCount]; [|done|apply Z.mod_pos_bound; lia].
    rewrite Z.add_mod_idemp_l by lia.
    replace (current_suggestion_idx u + 1 + Z.of_nat m) with (current_suggestion_idx u + Z.of_nat (S m)) by lia.
    replace (tabKeyCount u + 1 + Z.of_nat m) with (tabKeyCount u + Z.of_nat (S m)) by lia.
    reflexivity.
Qed.

Lemma tab_presses_cycle_suggestions_witness :
  let u := mk_ui [list_ascii_of_string "ab"; list_ascii_of_string "ac"] 1 [] 0 0 [] 0 in
  suggestions u <> [] /\ (0 <= current_suggestion_idx u < Z.of_nat (length (suggestions u))) /\
  run_keys u (replicate 3 9) (built "ab ac" 2) =
  inr (mk_ui (suggestions u) ((current_suggestion_idx u + Z.of_nat 3) mod Z.of_nat (length (suggestions u)))
             (user_input u) (cursor_pos u) (current_word_keystrokes u) (word_stats u)
             (tabKeyCount u + Z.of_nat 3), built "ab ac" 2).
Proof.
  intros u.
  assert (H1 : suggestions u <> []) by discriminate.
  assert (H2 : 0 <= current_suggestion_idx u < Z.of_nat (length (suggestions u))) by (simpl; lia).
  split; [exact H1|]. split; [exact H2|].
  exact (tab_presses_cycle_suggestions u 3 _ H1 H2).
Defined.

Lemma finalize_last u lw :
  last (py_split (py_strip (user_input u))) = Some lw ->
  0 < Z.of_nat (length (filter isalpha lw)) ->
  finalize_current_word_stats u =
  set_keystrokes (set_word_stats u (word_stats u ++
    [(current_word_keystrokes u, Z.of_nat (length (filter isalpha lw)))])) 0.
Proof.
  intros Hl Hp. unfold finalize_current_word_stats. rewrite Hl.
  destruct (Z.ltb_spec 0 (Z.of_nat (length (filter isalpha lw)))); [reflexivity|lia].
Qed.

(** Accepting a suggestion with Enter at the end of the text and then typing
    a space records the accepted word twice in [word_stats]: once with the
    keystrokes typed for it and once more with 0 keystrokes. *)
Theorem enter_then_space_records_word_twice st wt corpus n0 s u w :
  NgramCharacterModel_init st wt corpus n0 = inr s ->
  0 <= current_suggestion_idx u ->
  cursor_pos u = Z.of_nat (length (user_input u)) ->
  ("010"%char ∉ user_input u) ->
  suggestions u !! Z.to_nat (current_suggestion_idx u) = Some w ->
  Forall (fun c => is_ws c = false) w ->
  0 < Z.of_nat (length (filter isalpha w)) ->
  exists u', run_keys u [10; 32] s = inr (u', s) /\
    word_stats u' = word_stats u ++ [(current_word_keystrokes u, Z.of_nat (length (filter isalpha w)));
                                     (0, Z.of_nat (length (filter isalpha w)))].
Proof.
  intros E Hi0 Hc Hnl Hw Hnw Hl.
  pose proof (init_wf _ _ _ _ _ E) as Hwf.
  assert (Hne : w <> []) by (intros ->; simpl in Hl; lia).
  pose proof (lookup_lt_Some _ _ _ Hw) as Hlt.
  assert (Hidx : (current_suggestion_idx u <? Z.of_nat (length (suggestions u))) = true) by lia.
  assert (Hpl : py_list_index (suggestions u) (current_suggestion_idx u) = inr w).
  { unfold py_list_index, py_index.
    replace (current_suggestion_idx u <? 0) with false by lia.
    replace ((0 <=? current_suggestion_idx u) && (current_suggestion_idx u <? Z.of_nat (length (suggestions u))))
      with true by lia.
    rewrite Hw. reflexivity. }
  assert (Hc' : 0 <= cursor_pos u <= Z.of_nat (length (user_input u))) by lia.
  destruct (replace_current_word_spec u w Hc' Hnl Hnw) as (p & _ & Hp & _ & Hin & Hcur & _).
  assert (Hrest : lslice_from (user_input u) (cursor_pos u) = []).
  { rewrite lslice_from_drop by lia. apply drop_ge. lia. }
  rewrite Hrest, app_nil_r in Hin.
  set (u1 := replace_current_word u w) in *.
  assert (Hm : (match suggestions u with
          | [] => mret u
          | _ => if current_suggestion_idx u <? Z.of_nat (length (suggestions u)) then
                   w ← lift (py_list_index (suggestions u) (current_suggestion_idx u));
                   mret (replace_current_word u w)
                 else mret u
          end : M ui) s = inr (u1, s)).
  { destruct (suggestions u) as [|a sg] eqn:Es; [by rewrite lookup_nil in Hw|].
    rewrite <- Es in *. rewrite Hidx. unfold mbind, M_bind, lift. rewrite Hpl. reflexivity. }
  destruct (last_word_of_input p w Hnw Hne Hp) as [Hlast1 Hlast2].
  set (L := Z.of_nat (length (filter isalpha w))) in *.
  assert (Hf1 : finalize_current_word_stats u1 =
     set_keystrokes (set_word_stats u1 (word_stats u1 ++ [(current_word_keystrokes u1, L)])) 0).
  { apply finalize_last; [rewrite Hin; exact Hlast1|exact Hl]. }
  set (u2 := set_suggestions (finalize_current_word_stats u1) [] 0).
  assert (Hu2in : user_input u2 = p ++ w) by (unfold u2; rewrite Hf1; exact Hin).
  assert (Hu2c : cursor_pos u2 = Z.of_nat (length (p ++ w))).
  { unfold u2; rewrite Hf1. cbn [cursor_pos set_suggestions set_keystrokes set_word_stats].
    rewrite Hcur, length_app. reflexivity. }
  assert (Hu2ws : word_stats u2 = word_stats u ++ [(current_word_keystrokes u, L)])
    by (unfold u2; rewrite Hf1; reflexivity).
  assert (Hu2k : current_word_keystrokes u2 = 0) by (unfold u2; rewrite Hf1; reflexivity).
  cbn [run_keys]. unfold mbind at 1, M_bind at 1. rewrite handle_enter, Hm. fold u2. cbn beta iota.
  unfold mbind at 1, M_bind at 1. rewrite handle_space. cbv zeta.
  rewrite Hu2in, Hu2c.
  rewrite lslice_to_take, lslice_from_drop by lia.
  rewrite take_ge, drop_ge by lia. rewrite app_nil_r.
  set (u3 := set_input u2 ((p ++ w) ++ [" "%char]) (Z.of_nat (length (p ++ w)) + 1)).
  assert (Hf2 : finalize_current_word_stats u3 =
     set_keystrokes (set_word_stats u3 (word_stats u3 ++ [(current_word_keystrokes u3, L)])) 0).
  { apply finalize_last; [|exact Hl]. unfold u3. simpl. rewrite <- app_assoc. exact Hlast2. }
  destruct (update_suggestions_ok (get_current_word (finalize_current_word_stats u3))
              (finalize_current_word_stats u3) s Hwf) as (sg & E3 & _).
  rewrite E3. cbn beta iota. eexists. split; [reflexivity|].
  rewrite Hf2. unfold u3.
  cbn [word_stats current_word_keystrokes set_suggestions set_keystrokes set_word_stats set_input].
  rewrite Hu2ws, Hu2k, <- app_assoc. reflexivity.
Qed.

Lemma enter_then_space_records_word_twice_witness :
  let u := mk_ui [list_ascii_of_string "ab"] 0 (list_ascii_of_string "a") 1 1 [] 0 in
  let w := list_ascii_of_string "ab" in
  NgramCharacterModel_init sent_tokenize_plain word_tokenize_plain "ab ac" 2 = inr (built "ab ac" 2) /\
  0 <= current_suggestion_idx u /\
  cursor_pos u = Z.of_nat (length (user_input u)) /\
  ("010"%char ∉ user_input u) /\
  suggestions u !! Z.to_nat (current_suggestion_idx u) = Some w /\
  Forall (fun c => is_ws c = false) w /\
  0 < Z.of_nat (length (filter isalpha w)) /\
  exists u', run_keys u [10; 32] (built "ab ac" 2) = inr (u', built "ab ac" 2) /\
    word_stats u' = word_stats u ++ [(current_word_keystrokes u, Z.of_nat (length (filter isalpha w)));
                                     (0, Z.of_nat (length (filter isalpha w)))].
Proof.
  intros u w.
  assert (E : NgramCharacterModel_init sent_tokenize_plain word_tokenize_plain "ab ac" 2 = inr (built "ab ac" 2))
    by (vm_compute; reflexivity).
  assert (H1 : 0 <= current_suggestion_idx u) by (simpl; lia).
  assert (H2 : cursor_pos u = Z.of_nat (length (user_input u))) by reflexivity.
  assert (H3 : "010"%char ∉ user_input u) by (apply (bool_decide_unpack _); vm_compute; reflexivity).
  assert (H4 : suggestions u !! Z.to_nat (current_suggestion_idx u) = Some w) by reflexivity.
  assert (H5 : Forall (fun c => is_ws c = false) w) by (repeat constructor).
  assert (H6 : 0 < Z.of_nat (length (filter isalpha w))) by (vm_compute; reflexivity).
  split; [exact E|]. split; [exact H1|]. split; [exact H2|]. split; [exact H3|].
  split; [exact H4|]. split; [exact H5|]. split; [exact H6|].
  exact (enter_then_space_records_word_twice _ _ _ _ _ u w E H1 H2 H3 H4 H5 H6).
Defined.

Lemma finalize_fields u :
  user_input (finalize_current_word_stats u) = user_input u /\
  cursor_pos (finalize_current_word_stats u) = cursor_pos u /\
  suggestions (finalize_current_word_stats u) = suggestions u.
Proof.
  unfold finalize_current_word_stats. destruct (last _) as [lw|]; [|done].
  destruct (0 <? _); done.
Qed.

(** A printable key inserts its character at the cursor and moves the cursor
    one to the right; unless the character is a space, it adds one keystroke
    exactly when it is a letter and records no word. *)
Theorem typing_inserts_at_cursor st wt corpus n0 s u key :
  NgramCharacterModel_init st wt corpus n0 = inr s ->
  32 <= key <= 126 -> 0 <= cursor_pos u <= Z.of_nat (length (user_input u)) ->
  exists u', handle_input u key s = inr ((true, u'), s) /\
    user_input u' = take (Z.to_nat (cursor_pos u)) (user_input u) ++ [ascii_of_nat (Z.to_nat key)] ++
                    drop (Z.to_nat (cursor_pos u)) (user_input u) /\
    cursor_pos u' = cursor_pos u + 1 /\
    (ascii_of_nat (Z.to_nat key) <> " "%char ->
       word_stats u' = word_stats u /\
       current_word_keystrokes u' =
         current_word_keystrokes u + (if isalpha (ascii_of_nat (Z.to_nat key)) then 1 else 0)).
Proof.
  intros E Hk Hc. pose proof (init_wf _ _ _ _ _ E) as Hwf.
  unfold handle_input, KEY_RESIZE, KEY_BACKSPACE, KEY_LEFT, KEY_RIGHT.
  rewrite (proj2 (Z.eqb_neq key 410)), (proj2 (Z.eqb_neq key 27)), (proj2 (Z.eqb_neq key 9)),
    (proj2 (Z.eqb_neq key 10)), (proj2 (Z.eqb_neq key 263)), (proj2 (Z.eqb_neq key 127)),
    (proj2 (Z.eqb_neq key 8)), (proj2 (Z.eqb_neq key 260)), (proj2 (Z.eqb_neq key 261)) by lia.
  rewrite (proj2 (Z.leb_le 32 key)), (proj2 (Z.leb_le key 126)) by lia. cbn [orb andb].
  rewrite lslice_to_take, lslice_from_drop by lia.
  set (ch := ascii_of_nat (Z.to_nat key)).
  set (u1 := set_input u _ _).
  set (u2 := if isalpha ch then set_keystrokes u1 (current_word_keystrokes u1 + 1) else u1).
  set (u3 := if decide (ch = " "%char) then finalize_current_word_stats u2 else u2).
  destruct (update_suggestions_ok (get_current_word u3) u3 s Hwf) as (sg & E3 & _).
  unfold mbind at 1, M_bind at 1. rewrite E3. eexists. split; [reflexivity|].
  assert (H2 : user_input u2 = user_input u1 /\ cursor_pos u2 = cursor_pos u1 /\ word_stats u2 = word_stats u1 /\
               current_word_keystrokes u2 = current_word_keystrokes u1 + (if isalpha ch then 1 else 0)).
  { unfold u2. destruct (isalpha ch); simpl; split_and!; try reflexivity; lia. }
  destruct (decide (ch = " "%char)) as [Hsp|Hsp]; unfold u3.
  - cbn [user_input cursor_pos set_suggestions].
    destruct (finalize_fields u2) as (F1 & F2 & _). rewrite F1, F2.
    destruct H2 as (-> & -> & _). split; [reflexivity|]. split; [reflexivity|]. done.
  - cbn [user_input cursor_pos word_stats current_word_keystrokes set_suggestions].
    destruct H2 as (-> & -> & -> & ->). split; [reflexivity|]. split; [reflexivity|]. intros _. split; reflexivity.
Qed.

Lemma typing_inserts_at_cursor_witness :
  let u := mk_ui [] 0 (list_ascii_of_string "ac") 1 1 [] 0 in
  NgramCharacterModel_init sent_tokenize_plain word_tokenize_plain "ab ac" 2 = inr (built "ab ac" 2) /\
  (32 <= 98 <= 126) /\ (0 <= cursor_pos u <= Z.of_nat (length (user_input u))) /\
  exists u', handle_input u 98 (built "ab ac" 2) = inr ((true, u'), built "ab ac" 2) /\
    user_input u' = take (Z.to_nat (cursor_pos u)) (user_input u) ++ [ascii_of_nat (Z.to_nat 98)] ++
                    drop (Z.to_nat (cursor_pos u)) (user_input u) /\
    cursor_pos u' = cursor_pos u + 1 /\
    (ascii_of_nat (Z.to_nat 98) <> " "%char ->
       word_stats u' = word_stats u /\
       current_word_keystrokes u' =
         current_word_keystrokes u + (if isalpha (ascii_of_nat (Z.to_nat 98)) then 1 else 0)).
Proof.
  intros u.
  assert (E : NgramCharacterModel_init sent_tokenize_plain word_tokenize_plain "ab ac" 2 = inr (built "ab ac" 2))
    by (vm_compute; reflexivity).
  assert (H1 : 32 <= 98 <= 126) by lia.
  assert (H2 : 0 <= cursor_pos u <= Z.of_nat (length (user_input u))) by (simpl; lia).
  split; [exact E|]. split; [exact H1|]. split; [exact H2|].
  exact (typing_inserts_at_cursor _ _ _ _ _ u 98 E H1 H2).
Defined.

(** Backspace (any of its three key codes) deletes the character before the
    cursor and moves the cursor one to the left; at position 0 it changes
    nothing. *)
Theorem backspace_deletes_before_cursor st wt corpus n0 s u key :
  NgramCharacterModel_init st wt corpus n0 = inr s ->
  (key = KEY_BACKSPACE \/ key = 127 \/ key = 8) ->
  0 <= cursor_pos u <= Z.of_nat (length (user_input u)) ->
  exists u', handle_input u key s = inr ((true, u'), s) /\
    (cursor_pos u = 0 -> u' = u) /\
    (0 < cursor_pos u ->
       user_input u' = take (Z.to_nat (cursor_pos u - 1)) (user_input u) ++ drop (Z.to_nat (cursor_pos u)) (user_input u) /\
       cursor_pos u' = cursor_pos u - 1).
Proof.
  intros E Hk Hc. pose proof (init_wf _ _ _ _ _ E) as Hwf.
  assert (Hb : ((key =? KEY_BACKSPACE) || (key =? 127) || (key =? 8)) = true)
    by (destruct Hk as [->|[->| ->]]; reflexivity).
  unfold handle_input. rewrite Hb. unfold KEY_BACKSPACE, KEY_RESIZE in *.
  rewrite (proj2 (Z.eqb_neq key 410)), (proj2 (Z.eqb_neq key 27)), (proj2 (Z.eqb_neq key 9)),
    (proj2 (Z.eqb_neq key 10)) by lia.
  destruct (Z.ltb_spec 0 (cursor_pos u)) as [Hc0|Hc0].
  - destruct (py_list_index_in (user_input u) (cursor_pos u - 1)) as [ch Hch]; [lia|].
    unfold mbind at 1, M_bind at 1, lift. rewrite Hch.
    rewrite lslice_to_take, lslice_from_drop by lia.
    set (u1 := set_input u _ _).
    set (u2 := if isalpha ch && (0 <? current_word_keystrokes u1)
               then set_keystrokes u1 (current_word_keystrokes u1 - 1) else u1).
    assert (H2 : user_input u2 = user_input u1 /\ cursor_pos u2 = cursor_pos u1)
      by (unfold u2; destruct (_ && _); split; reflexivity).
    destruct (update_suggestions_ok (get_current_word u2) u2 s Hwf) as (sg & E3 & _).
    unfold mret at 1, M_ret at 1. cbn beta iota. fold u2.
    unfold mbind at 1, M_bind at 1. rewrite E3. eexists. split; [reflexivity|].
    split; [lia|]. intros _. cbn [user_input cursor_pos set_suggestions]. destruct H2 as [-> ->].
    split; reflexivity.
  - eexists. split; [reflexivity|]. split; [done|lia].
Qed.

Lemma backspace_deletes_before_cursor_witness :
  let u := mk_ui [] 0 (list_ascii_of_string "abc") 2 2 [] 0 in
  NgramCharacterModel_init sent_tokenize_plain word_tokenize_plain "ab ac" 2 = inr (built "ab ac" 2) /\
  (127 = KEY_BACKSPACE \/ 127 = 127 \/ 127 = 8) /\
  (0 <= cursor_pos u <= Z.of_nat (length (user_input u))) /\
  exists u', handle_input u 127 (built "ab ac" 2) = inr ((true, u'), built "ab ac" 2) /\
    (cursor_pos u = 0 -> u' = u) /\
    (0 < cursor_pos u ->
       user_input u' = take (Z.to_nat (cursor_pos u - 1)) (user_input u) ++ drop (Z.to_nat (cursor_pos u)) (user_input u) /\
       cursor_pos u' = cursor_pos u - 1).
Proof.
  intros u.
  assert (E : NgramCharacterModel_init sent_tokenize_plain word_tokenize_plain "ab ac" 2 = inr (built "ab ac" 2))
    by (vm_compute; reflexivity).
  assert (H1 : 127 = KEY_BACKSPACE \/ 127 = 127 \/ 127 = 8) by (right; left; reflexivity).
  assert (H2 : 0 <= cursor_pos u <= Z.of_nat (length (user_input u))) by (simpl; lia).
  split; [exact E|]. split; [exact H1|]. split; [exact H2|].
  exact (backspace_deletes_before_cursor _ _ _ _ _ u 127 E H1 H2).
Defined.

Lemma handle_left u s :
  handle_input u KEY_LEFT s =
  (if 0 <? cursor_pos u then
     let u1 := set_input u (user_input u) (cursor_pos u - 1) in
     match update_suggestions (get_current_word u1) u1 s with
     | inl e => inl e
     | inr (u2, s') => inr ((true, u2), s')
     end
   else inr ((true, u), s)).
Proof. unfold handle_input. simpl. destruct (0 <? cursor_pos u); reflexivity. Qed.

Lemma handle_right u s :
  handle_input u KEY_RIGHT s =
  (if cursor_pos u <? Z.of_nat (length (user_input u)) then
     let u1 := set_input u (user_input u) (cursor_pos u + 1) in
     match update_suggestions (get_current_word u1) u1 s with
     | inl e => inl e
     | inr (u2, s') => inr ((true, u2), s')
     end
   else inr ((true, u), s)).
Proof. unfold handle_input. simpl. destruct (cursor_pos u <? _); reflexivity. Qed.

(** The Left and Right keys leave the text unchanged and move the cursor one
    step, stopping at the two ends of the text. *)
Theorem arrow_keys_move_cursor st wt corpus n0 s u :
  NgramCharacterModel_init st wt corpus n0 = inr s ->
  0 <= cursor_pos u <= Z.of_nat (length (user_input u)) ->
  (exists u', handle_input u KEY_LEFT s = inr ((true, u'), s) /\
     user_input u' = user_input u /\ cursor_pos u' = Z.max 0 (cursor_pos u - 1)) /\
  (exists u', handle_input u KEY_RIGHT s = inr ((true, u'), s) /\
     user_input u' = user_input u /\ cursor_pos u' = Z.min (Z.of_nat (length (user_input u))) (cursor_pos u + 1)).
Proof.
  intros E Hc. pose proof (init_wf _ _ _ _ _ E) as Hwf. split.
  - rewrite handle_left. destruct (Z.ltb_spec 0 (cursor_pos u)).
    + cbv zeta.
      destruct (update_suggestions_ok (get_current_word (set_input u (user_input u) (cursor_pos u - 1)))
                  (set_input u (user_input u) (cursor_pos u - 1)) s Hwf) as (sg & E1 & _).
      rewrite E1. eexists. split; [reflexivity|]. simpl. split; [reflexivity|lia].
    + eexists. split; [reflexivity|]. split; [reflexivity|lia].
  - rewrite handle_right. destruct (Z.ltb_spec (cursor_pos u) (Z.of_nat (length (user_input u)))).
    + cbv zeta.
      destruct (update_suggestions_ok (get_current_word (set_input u (user_input u) (cursor_pos u + 1)))
                  (set_input u (user_input u) (cursor_pos u + 1)) s Hwf) as (sg & E1 & _).
      rewrite E1. eexists. split; [reflexivity|]. simpl. split; [reflexivity|lia].
    + eexists. split; [reflexivity|]. split; [reflexivity|lia].
Qed.

Lemma arrow_keys_move_cursor_witness :
  let u := mk_ui [] 0 (list_ascii_of_string "ab") 2 2 [] 0 in
  NgramCharacterModel_init sent_tokenize_plain word_tokenize_plain "ab ac" 2 = inr (built "ab ac" 2) /\
  (0 <= cursor_pos u <= Z.of_nat (length (user_input u))) /\
  (exists u', handle_input u KEY_LEFT (built "ab ac" 2) = inr ((true, u'), built "ab ac" 2) /\
     user_input u' = user_input u /\ cursor_pos u' = Z.max 0 (cursor_pos u - 1)) /\
  (exists u', handle_input u KEY_RIGHT (built "ab ac" 2) = inr ((true, u'), built "ab ac" 2) /\
     user_input u' = user_input u /\ cursor_pos u' = Z.min (Z.of_nat (length (user_input u))) (cursor_pos u + 1)).
Proof.
  intros u.
  assert (E : NgramCharacterModel_init sent_tokenize_plain word_tokenize_plain "ab ac" 2 = inr (built "ab ac" 2))
    by (vm_compute; reflexivity).
  assert (H1 : 0 <= cursor_pos u <= Z.of_nat (length (user_input u))) by (simpl; lia).
  split; [exact E|]. split; [exact H1|].
  exact (arrow_keys_move_cursor _ _ _ _ _ u E H1).
Defined.

(** ESC ends the key loop at once: the keys after it are not handled and the
    state is unchanged. *)
Theorem escape_ends_run u ks s : run_keys u (27 :: ks) s = inr (u, s).
Proof. reflexivity. Qed.

(** A key that is neither ESC, Tab, Enter, a backspace or arrow code nor a
    printable character (including KEY_RESIZE) leaves the state unchanged and
    keeps the loop running. *)
Theorem unhandled_keys_change_nothing u key s :
  ~ In key [27; 9; 10; KEY_BACKSPACE; 127; 8; KEY_LEFT; KEY_RIGHT] -> ~ (32 <= key <= 126) ->
  handle_input u key s = inr ((true, u), s).
Proof.
  intros Hn Hp. unfold handle_input.
  destruct (Z.eqb_spec key KEY_RESIZE); [reflexivity|].
  unfold KEY_BACKSPACE, KEY_LEFT, KEY_RIGHT in *. simpl in Hn.
  rewrite (proj2 (Z.eqb_neq key 27)), (proj2 (Z.eqb_neq key 9)), (proj2 (Z.eqb_neq key 10)),
    (proj2 (Z.eqb_neq key 263)), (proj2 (Z.eqb_neq key 127)), (proj2 (Z.eqb_neq key 8)),
    (proj2 (Z.eqb_neq key 260)), (proj2 (Z.eqb_neq key 261)) by lia.
  cbn [orb]. destruct (Z.leb_spec 32 key); destruct (Z.leb_spec key 126); try lia; reflexivity.
Qed.

Lemma unhandled_keys_change_nothing_witness :
  (~ In 500 [27; 9; 10; KEY_BACKSPACE; 127; 8; KEY_LEFT; KEY_RIGHT]) /\ ~ (32 <= 500 <= 126) /\
  handle_input ui_init 500 (built "ab ac" 2) = inr ((true, ui_init), built "ab ac" 2).
Proof.
  assert (H1 : ~ In 500 [27; 9; 10; KEY_BACKSPACE; 127; 8; KEY_LEFT; KEY_RIGHT])
    by (unfold KEY_BACKSPACE, KEY_LEFT, KEY_RIGHT; simpl; lia).
  assert (H2 : ~ (32 <= 500 <= 126)) by lia.
  split; [exact H1|]. split; [exact H2|].
  exact (unhandled_keys_change_nothing ui_init 500 _ H1 H2).
Defined.

(** [update_suggestions] only replaces the suggestion list and resets the
    index to 0; the new list has at most 10 entries, each a vocabulary word
    starting with the lower-cased context. *)
Theorem update_suggestions_from_vocabulary st wt corpus n0 s ctx u :
  NgramCharacterModel_init st wt corpus n0 = inr s ->
  exists sg, update_suggestions ctx u s = inr (set_suggestions u sg 0, s) /\ (length sg <= 10)%nat /\
    Forall (fun w => In (string_of_list_ascii w) (words s) /\
                     startswith (string_of_list_ascii w) (py_lower (string_of_list_ascii ctx)) = true) sg.
Proof. intros E. exact (update_suggestions_ok ctx u s (init_wf _ _ _ _ _ E)). Qed.

Lemma update_suggestions_from_vocabulary_witness :
  NgramCharacterModel_init sent_tokenize_plain word_tokenize_plain "ab ac" 2 = inr (built "ab ac" 2) /\
  exists sg, update_suggestions (list_ascii_of_string "A") ui_init (built "ab ac" 2) =
             inr (set_suggestions ui_init sg 0, built "ab ac" 2) /\ (length sg <= 10)%nat /\
    Forall (fun w => In (string_of_list_ascii w) (words (built "ab ac" 2)) /\
                     startswith (string_of_list_ascii w) (py_lower (string_of_list_ascii (list_ascii_of_string "A"))) = true) sg.
Proof.
  assert (E : NgramCharacterModel_init sent_tokenize_plain word_tokenize_plain "ab ac" 2 = inr (built "ab ac" 2))
    by (vm_compute; reflexivity).
  split; [exact E|]. exact (update_suggestions_from_vocabulary _ _ _ _ _ _ ui_init E).
Defined.


Lemma sum_snd_pos (ws : list (Z * Z)) :
  Forall (fun kl => 0 <= kl.1 /\ 0 < kl.2) ws ->
  (0 < fold_right Z.add 0 (map snd ws) <-> ws <> []) /\ 0 <= fold_right Z.add 0 (map snd ws) /\
  0 <= fold_right Z.add 0 (map fst ws).
Proof.
  induction ws as [|[k l] ws IH]; intros Hf; simpl; [split; [split; [lia|done]|lia]|].
  apply Forall_cons in Hf as [[Hk Hl] Hf]. simpl in Hk, Hl. destruct (IH Hf) as (_ & H1 & H2).
  split; [split; [done|lia]|lia].
Qed.

Lemma Qdiv_nonneg_Z (a b : Z) : 0 <= a -> 0 < b -> (0 <= inject_Z a / inject_Z b)%Q.
Proof.
  intros Ha Hb. apply Qle_shift_div_l; [unfold Qlt; simpl; lia|].
  rewrite Qmult_0_l. unfold Qle; simpl; lia.
Qed.

(** For a state satisfying [ui_ok], the sum of the recorded word lengths is
    positive exactly when a word was recorded, so both averages fall back to
    0 together, and all four scores are non-negative. *)
Theorem calculate_scores_nonneg u :
  ui_ok u ->
  (0 < fold_right Z.add 0 (map snd (word_stats u)) <-> word_stats u <> []) /\
  Forall (fun q => 0 <= q)%Q (calculate_scores u).
Proof.
  intros Hu. pose proof Hu as (_ & _ & _ & _ & _ & Ht & Hf).
  destruct (sum_snd_pos (word_stats u) Hf) as (Hiff & Hl & Hk).
  split; [done|]. unfold calculate_scores.
  repeat constructor.
  - unfold Qle; simpl; lia.
  - unfold Qle; simpl; lia.
  - destruct (Z.ltb_spec 0 (fold_right Z.add 0 (map snd (word_stats u)))); [by apply Qdiv_nonneg_Z|done].
  - destruct (Z.ltb_spec 0 (Z.of_nat (length (word_stats u)))); [by apply Qdiv_nonneg_Z|done].
Qed.

Lemma calculate_scores_nonneg_witness :
  let u := mk_ui [] 0 [] 0 0 [(1, 2); (0, 2)] 1 in
  ui_ok u /\
  (0 < fold_right Z.add 0 (map snd (word_stats u)) <-> word_stats u <> []) /\
  Forall (fun q => 0 <= q)%Q (calculate_scores u).
Proof.
  intros u. assert (Hu : ui_ok u) by (ui_ok_solve; repeat constructor; simpl; lia).
  split; [exact Hu|]. exact (calculate_scores_nonneg u Hu).
Defined.



Lemma forM_prefix_inv {A} (P : list A -> model -> Prop) (l : list A) (f : A -> M unit) s :
  (forall l1 x l2 s1, l = l1 ++ x :: l2 -> P l1 s1 -> exists s2, f x s1 = inr (tt, s2) /\ P (l1 ++ [x]) s2) ->
  P [] s -> exists s', forM l f s = inr (tt, s') /\ P l s'.
Proof.
  intros Hf H0.
  assert (G : forall rest l1 s1, l = l1 ++ rest -> P l1 s1 -> exists s', forM rest f s1 = inr (tt, s') /\ P l s').
  { induction rest as [|x rest IH]; intros l1 s1 Hl Hp.
    - exists s1. rewrite app_nil_r in Hl. subst. done.
    - destruct (Hf l1 x rest s1 Hl Hp) as (s2 & E & Hp2). simpl. unfold mbind, M_bind. rewrite E.
      apply (IH (l1 ++ [x])); [by rewrite <- app_assoc|done]. }
  by apply (G l []).
Qed.

Lemma in_keys {V} (tm : gmap string V) k : In k (map fst (map_to_list tm)) <-> is_Some (tm !! k).
Proof.
  rewrite in_map_iff. split.
  - intros ([k' v] & <- & Hin). apply list_elem_of_In, elem_of_map_to_list in Hin. simpl. eauto.
  - intros [v Hv]. exists (k, v). split; [done|]. apply list_elem_of_In, elem_of_map_to_list. done.
Qed.

Lemma backoff_spec s0 :
  wf s0 -> exists s', _calculate_backoff_weights s0 = inr (tt, s') /\ contexts s' = contexts s0 /\
    length (backoff_weights s') = Z.to_nat (n s0 + 1) /\
    forall (i : nat) k, backoff_weights s' !! i ≫= (fun bm => bm !! k) = expected_backoff s0 i k.
Proof.
  intros Hwf. pose proof (wf_contexts_len s0 Hwf) as Lt.
  set (Pout := fun (l1 : list Z) s' => contexts s' = contexts s0 /\ n s' = n s0 /\
     length (backoff_weights s') = Z.to_nat (n s0 + 1) /\
     forall (i : nat) k, (In (Z.of_nat i) l1 -> backoff_weights s' !! i ≫= (fun bm => bm !! k) = expected_backoff s0 i k) /\
                         (~ In (Z.of_nat i) l1 -> backoff_weights s' !! i ≫= (fun bm => bm !! k) = None)).
  enough (Hmain : exists s', _calculate_backoff_weights s0 = inr (tt, s') /\ Pout (py_range 2 (n s0 + 1)) s').
  { destruct Hmain as (s' & E & Ht & Hn & Hb & HB). exists s'. split_and!; try done.
    intros i k. destruct (in_dec Z.eq_dec (Z.of_nat i) (py_range 2 (n s0 + 1))) as [Hi|Hi].
    - by apply HB.
    - rewrite (proj2 (HB i k) Hi). unfold expected_backoff.
      rewrite in_py_range in Hi. destruct (Nat.leb_spec 2 i); [|done].
      rewrite (lookup_ge_None_2 (contexts s0) i); [done|]. lia. }
  unfold _calculate_backoff_weights. unfold get_self, put_self, mbind at 1 2, M_bind.
  match goal with |- context [forM ?l ?f ?s1] => destruct (forM_prefix_inv Pout l f s1) as (s' & E & HP) end.
  3: { rewrite E. eauto. }
  2: { unfold Pout; simpl. split_and!; try done; [apply length_replicate|].
       intros i k. split; [done|]. intros _.
       destruct (replicate _ ∅ !! i) as [bm|] eqn:Eb; [|done].
       apply lookup_replicate in Eb as [-> _]. apply lookup_empty. }
  intros l1 j l2 s1 Hl (Ht1 & Hn1 & Hb1 & HB1).
  assert (Hj : In j (py_range 2 (n s0 + 1))) by (rewrite Hl; apply in_app_iff; right; left; done).
  apply in_py_range in Hj.
  unfold contexts_at. unfold get_self, put_self, lift, lift_opt, raise, mbind, M_bind, mret, M_ret.
  rewrite (py_index_ok (length (contexts s1))) by (rewrite ?Ht1; lia).
  destruct (lookup_lt_is_Some_2 (contexts s1) (Z.to_nat j)) as [tm Htm]; [rewrite Ht1; lia|].
  rewrite Htm. simpl.
  set (Pin := fun (l1' : list string) s2 => contexts s2 = contexts s0 /\ n s2 = n s0 /\
     length (backoff_weights s2) = Z.to_nat (n s0 + 1) /\
     (forall (i : nat) k, i <> Z.to_nat j -> backoff_weights s2 !! i ≫= (fun bm => bm !! k) = backoff_weights s1 !! i ≫= (fun bm => bm !! k)) /\
     (forall k, backoff_weights s2 !! Z.to_nat j ≫= (fun bm => bm !! k) =
        if in_dec string_dec k l1' then Some (backoff_weight s0 (Z.to_nat j) k)
        else backoff_weights s1 !! Z.to_nat j ≫= (fun bm => bm !! k))).
  match goal with |- context [forM ?l ?f ?s] => destruct (forM_prefix_inv Pin l f s) as (s2 & E2 & HP2) end.
  3: { rewrite E2. exists s2. split; [done|].
       destruct HP2 as (Ht2 & Hn2 & Hb2 & Hoth & Hjj). unfold Pout. split_and!; try done.
       intros i k. rewrite Ht1 in Htm.
       destruct (decide (i = Z.to_nat j)) as [->|Hne].
       - rewrite Hjj. split; [intros _|intros Hnot].
         + unfold expected_backoff. replace (2 <=? Z.to_nat j)%nat with true by (symmetry; apply Nat.leb_le; lia).
           rewrite Htm. simpl.
           destruct (in_dec string_dec k _) as [Hk|Hk].
           * apply in_keys in Hk as [v Hv]. rewrite Hv. done.
           * destruct (tm !! k) as [v|] eqn:Ev; [exfalso; apply Hk, in_keys; eauto|simpl].
             destruct (in_dec Z.eq_dec (Z.of_nat (Z.to_nat j)) l1) as [Hin|Hin].
             -- rewrite (proj1 (HB1 _ k) Hin). unfold expected_backoff.
                replace (2 <=? Z.to_nat j)%nat with true by (symmetry; apply Nat.leb_le; lia).
                rewrite Htm. simpl. rewrite Ev. done.
             -- apply (proj2 (HB1 _ k) Hin).
         + exfalso. apply Hnot. apply in_app_iff. right. left. lia.
       - rewrite Hoth by done. split; intros Hi.
         + apply in_app_iff in Hi as [Hi|[Hi|[]]]; [by apply HB1|lia].
         + apply HB1. intros Hi'. apply Hi, in_app_iff. by left. }
  2: { unfold Pin. split_and!; try done. }
  intros l1' k l2' s2 Hl' (Ht2 & Hn2 & Hb2 & Hoth & Hjj).
  unfold get_self, put_self, lift, lift_opt, raise, mbind, M_bind, mret, M_ret.
  rewrite (py_index_ok (length (contexts s2))) by (rewrite ?Ht2; lia).
  destruct (lookup_lt_is_Some_2 (contexts s2) (Z.to_nat (j - 1))) as [tm' Htm']; [rewrite Ht2; lia|].
  rewrite Htm'. simpl. unfold backoff_setitem. unfold get_self, put_self, lift, lift_opt, raise, mbind, M_bind, mret, M_ret.
  rewrite (py_index_ok (length (backoff_weights s2))) by lia.
  destruct (lookup_lt_is_Some_2 (backoff_weights s2) (Z.to_nat j)) as [bm Hbm]; [lia|].
  rewrite Hbm. simpl. eexists; split; [reflexivity|].
  unfold Pin; simpl. split_and!; try done.
  - by rewrite length_insert.
  - intros i k' Hne. rewrite list_lookup_insert_ne by done. by apply Hoth.
  - intros k'. rewrite list_lookup_insert, decide_True by (split; [done|lia]). simpl.
    assert (Hw : (if decide (is_Some (tm' !! py_slice_from k 1)) then (4 # 10)%Q else (1 # 10)%Q) =
                 backoff_weight s0 (Z.to_nat j) k).
    { unfold backoff_weight. rewrite Ht2 in Htm'. replace (Z.to_nat j - 1)%nat with (Z.to_nat (j - 1)) by lia.
      rewrite Htm'. reflexivity. }
    rewrite Hw. destruct (decide (k' = k)) as [->|Hne].
    + rewrite lookup_insert_eq. destruct (in_dec _ _ _) as [|Hn]; [done|].
      exfalso. apply Hn, in_app_iff. right. left. done.
    + rewrite lookup_insert_ne by congruence. specialize (Hjj k'). rewrite Hbm in Hjj. simpl in Hjj.
      rewrite Hjj. destruct (in_dec string_dec k' l1') as [Hi|Hi];
        destruct (in_dec string_dec k' (l1' ++ [k])) as [Hi'|Hi']; try done.
      * exfalso. apply Hi', in_app_iff. by left.
      * exfalso. apply in_app_iff in Hi' as [Hi'|[Hi'|[]]]; [done|congruence].
Qed.

Lemma init_backoff st wt corpus n0 s :
  NgramCharacterModel_init st wt corpus n0 = inr s ->
  exists s1, wf s1 /\ _calculate_backoff_weights s1 = inr (tt, s).
Proof.
  unfold NgramCharacterModel_init.
  set (ws := tokens_of st wt corpus n0).
  set (s0 := mk_model n0 (replicate (Z.to_nat (n0 + 1)) ∅) (replicate (Z.to_nat (n0 + 1)) ∅)
               [] (vocabulary ws) (counter ws)).
  assert (Hwf0 : wf s0).
  { constructor; simpl; try apply length_replicate.
    - intros i cm tm Hcm Htm.
      apply lookup_replicate in Hcm as [-> _]. apply lookup_replicate in Htm as [-> _].
      apply table_ok_empty.
    - apply counter_nonneg. }
  destruct (train_ok (String.concat " " ws) s0 Hwf0) as (s1 & E1 & Hwf1 & _).
  unfold mbind at 1, M_bind at 1. rewrite E1.
  destruct (_calculate_backoff_weights s1) as [e|[[] s2]] eqn:E2; [discriminate|].
  intros [= ->]. eauto.
Qed.

Lemma expected_backoff_contexts a b :
  contexts a = contexts b -> expected_backoff a = expected_backoff b.
Proof. intros H. unfold expected_backoff, backoff_weight. by rewrite H. Qed.

(** After construction [backoff_weights] has one table per order, and
    [backoff_weights[j][ctx]] is defined exactly for [j >= 2] and the
    contexts [ctx] of [contexts[j]], with weight 0.4 or 0.1 as
    [backoff_weight] says. *)
Theorem backoff_weights_after_init st wt corpus n0 s :
  NgramCharacterModel_init st wt corpus n0 = inr s ->
  length (backoff_weights s) = length (contexts s) /\
  forall (j : nat) k, backoff_weights s !! j ≫= (fun bm => bm !! k) = expected_backoff s j k.
Proof.
  intros E. destruct (init_backoff _ _ _ _ _ E) as (s1 & Hwf1 & E1).
  destruct (backoff_spec s1 Hwf1) as (s' & E' & Ht & Hl & Hb).
  rewrite E1 in E'. injection E' as <-.
  rewrite (expected_backoff_contexts s s1 Ht), Ht, Hl, (wf_contexts_len s1 Hwf1). split; [done|exact Hb].
Qed.

Lemma backoff_weights_after_init_witness :
  NgramCharacterModel_init sent_tokenize_plain word_tokenize_plain "ab ac" 2 = inr (built "ab ac" 2) /\
  length (backoff_weights (built "ab ac" 2)) = length (contexts (built "ab ac" 2)) /\
  forall (j : nat) k, backoff_weights (built "ab ac" 2) !! j ≫= (fun bm => bm !! k) =
                      expected_backoff (built "ab ac" 2) j k.
Proof.
  assert (E : NgramCharacterModel_init sent_tokenize_plain word_tokenize_plain "ab ac" 2 = inr (built "ab ac" 2))
    by (vm_compute; reflexivity).
  split; [exact E|]. exact (backoff_weights_after_init _ _ _ _ _ E).
Defined.


(** After construction the vocabulary has no duplicates and contains exactly
    the tokens other than the markers [^] and [$]. *)
Theorem words_after_init st wt corpus n0 s :
  NgramCharacterModel_init st wt corpus n0 = inr s ->
  NoDup (words s) /\
  forall w, In w (words s) <-> In w (tokens_of st wt corpus n0) /\ w <> "^"%string /\ w <> "$"%string.
Proof.
  intros E. destruct (init_ok st wt corpus n0) as (s' & E' & _ & _ & Hw & _).
  rewrite E in E'. injection E' as <-. rewrite Hw. unfold vocabulary. split; [apply NoDup_elements|].
  intros w. rewrite <- list_elem_of_In, elem_of_elements, elem_of_list_to_set, list_elem_of_filter, list_elem_of_In.
  tauto.
Qed.

Lemma counter_foldl (ws : list string) (acc : gmap string Z) w :
  default 0 (foldl (fun (m : gmap string Z) w => <[w := default 0 (m !! w) + 1]> m) acc ws !! w) =
    default 0 (acc !! w) + Z.of_nat (count_occ string_dec ws w) /\
  (is_Some (foldl (fun (m : gmap string Z) w => <[w := default 0 (m !! w) + 1]> m) acc ws !! w) <-> is_Some (acc !! w) \/ In w ws).
Proof.
  revert acc. induction ws as [|x ws IH]; intros acc; simpl.
  - split; [lia|]. tauto.
  - destruct (IH (<[x := default 0 (acc !! x) + 1]> acc)) as [H1 H2]. rewrite H1, H2.
    destruct (string_dec x w) as [->|Hne].
    + rewrite lookup_insert_eq. simpl. split; [lia|]. split; [intros _; right; by left|intros _; left; eauto].
    + rewrite lookup_insert_ne by done. split; [lia|]. split; [intros [H|H]; auto|intros [H|[H|H]]; auto; done].
Qed.

(** After construction [word_freq[w]] is the number of occurrences of [w] in
    the token list (markers included), and [w] is a key exactly when it
    occurs. *)
Theorem word_freq_after_init st wt corpus n0 s w :
  NgramCharacterModel_init st wt corpus n0 = inr s ->
  default 0 (word_freq s !! w) = Z.of_nat (count_occ string_dec (tokens_of st wt corpus n0) w) /\
  (is_Some (word_freq s !! w) <-> In w (tokens_of st wt corpus n0)).
Proof.
  intros E. destruct (init_ok st wt corpus n0) as (s' & E' & _ & _ & _ & Hf).
  rewrite E in E'. injection E' as <-. rewrite Hf. unfold counter.
  destruct (counter_foldl (tokens_of st wt corpus n0) ∅ w) as [H1 H2].
  rewrite H1, H2, lookup_empty. simpl. split; [lia|]. split; [intros [[]|H]; [done|done]|auto].
Qed.

Lemma get_word_probability_sign_wf ctx w s :
  wf s -> exists r, get_word_probability ctx w s = inr (r, s) /\
    (startswith w ctx = true -> (0 < r)%R) /\ (startswith w ctx = false -> r = 0%R).
Proof.
  intros Hwf. destruct (startswith w ctx) eqn:Hpre.
  - destruct (gwp_loop_ok (list_ascii_of_string (py_slice_from w (str_len ctx)))
      (py_slice_from ctx (- Z.min (str_len ctx) (n s - 1))) 0%R s Hwf) as [lp Hlp].
    eexists. split; [by apply get_word_probability_value|]. split; [intros _|done].
    assert (Hf : (0 <= IZR (default 0%Z (word_freq s !! w)))%R).
    { apply IZR_le. destruct (word_freq s !! w) eqn:E; simpl; [|lia]. apply (wf_freq s Hwf _ _ E). }
    assert (Hln : (0 <= ln (1 + IZR (default 0%Z (word_freq s !! w))))%R).
    { rewrite <- ln_1. destruct (Req_dec (IZR (default 0%Z (word_freq s !! w))) 0) as [H0|H0].
      - rewrite H0, Rplus_0_r. lra.
      - left. apply ln_increasing; lra. }
    assert (Hlen : (0 <= IZR (str_len w - str_len ctx))%R).
    { apply IZR_le. unfold str_len. apply prefix_length in Hpre. lia. }
    apply Rmult_lt_0_compat; [apply Rmult_lt_0_compat; [apply exp_pos|lra]|].
    apply Rdiv_lt_0_compat; lra.
  - exists 0%R. unfold get_word_probability. rewrite Hpre. split; [reflexivity|]. done.
Qed.

(** In a constructed model [get_word_probability] never raises (each
    logarithm gets a positive argument and the length penalty a positive
    divisor), its score is never negative, and it is 0 for a word that does
    not start with the context. *)
Theorem get_word_probability_nonneg st wt corpus n0 s ctx w :
  NgramCharacterModel_init st wt corpus n0 = inr s ->
  exists r, get_word_probability ctx w s = inr (r, s) /\ (0 <= r)%R /\
    (startswith w ctx = false -> r = 0%R).
Proof.
  intros E. destruct (get_word_probability_sign_wf ctx w s (init_wf _ _ _ _ _ E)) as (r & Hr & Hpos & Hz).
  exists r. split; [exact Hr|]. split; [|exact Hz].
  destruct (startswith w ctx); [left; by apply Hpos|]. rewrite Hz by done. lra.
Qed.

Lemma get_word_probability_nonneg_witness :
  NgramCharacterModel_init sent_tokenize_plain word_tokenize_plain "ab ac" 2 = inr (built "ab ac" 2) /\
  exists r, get_word_probability "b" "ab" (built "ab ac" 2) = inr (r, built "ab ac" 2) /\ (0 <= r)%R /\
    (startswith "ab" "b" = false -> r = 0%R).
Proof.
  assert (E : NgramCharacterModel_init sent_tokenize_plain word_tokenize_plain "ab ac" 2 = inr (built "ab ac" 2))
    by (vm_compute; reflexivity).
  split; [exact E|]. exact (get_word_probability_nonneg _ _ _ _ _ "b" "ab" E).
Defined.

Lemma words_after_init_witness :
  NgramCharacterModel_init sent_tokenize_plain word_tokenize_plain "ab ac" 2 = inr (built "ab ac" 2) /\
  NoDup (words (built "ab ac" 2)) /\
  forall w, In w (words (built "ab ac" 2)) <->
            In w (tokens_of sent_tokenize_plain word_tokenize_plain "ab ac" 2) /\ w <> "^"%string /\ w <> "$"%string.
Proof.
  assert (E : NgramCharacterModel_init sent_tokenize_plain word_tokenize_plain "ab ac" 2 = inr (built "ab ac" 2))
    by (vm_compute; reflexivity).
  split; [exact E|]. exact (words_after_init _ _ _ _ _ E).
Defined.

Lemma word_freq_after_init_witness :
  NgramCharacterModel_init sent_tokenize_plain word_tokenize_plain "ab ac" 2 = inr (built "ab ac" 2) /\
  default 0 (word_freq (built "ab ac" 2) !! "^"%string) =
    Z.of_nat (count_occ string_dec (tokens_of sent_tokenize_plain word_tokenize_plain "ab ac" 2) "^"%string) /\
  (is_Some (word_freq (built "ab ac" 2) !! "^"%string) <->
   In "^"%string (tokens_of sent_tokenize_plain word_tokenize_plain "ab ac" 2)).
Proof.
  assert (E : NgramCharacterModel_init sent_tokenize_plain word_tokenize_plain "ab ac" 2 = inr (built "ab ac" 2))
    by (vm_compute; reflexivity).
  split; [exact E|]. exact (word_freq_after_init _ _ _ _ _ "^"%string E).
Defined.

Lemma ascii_lower_idem c : ascii_lower (ascii_lower c) = ascii_lower c.
Proof. destruct c as [[] [] [] [] [] [] [] []]; reflexivity. Qed.

Lemma py_lower_idem p : py_lower (py_lower p) = py_lower p.
Proof.
  unfold py_lower. rewrite list_ascii_of_string_of_list_ascii, map_map.
  f_equal. apply map_ext, ascii_lower_idem.
Qed.

Lemma descending_head_max x l : descending (x :: l) -> Forall (fun y => (snd y <= snd x)%R) l.
Proof.
  revert x. induction l as [|y l IH]; intros x Hd; [constructor|].
  destruct Hd as [Hxy Hd]. constructor; [done|].
  apply IH in Hd. eapply Forall_impl; [exact Hd|]. simpl. intros z Hz. lra.
Qed.

Lemma _generate_word_result prefix s :
  wf s ->
  exists scored,
    map fst scored = filter (fun w => startswith w (py_lower prefix) = true) (words s) /\
    (forall w r, In (w, r) scored -> get_word_probability (py_lower prefix) w s = inr (r, s)) /\
    _generate_word prefix s = inr (match sort_desc scored with (w, _) :: _ => Some w | [] => None end, s).
Proof.
  intros Hwf. destruct (predict_top_words_result (py_lower prefix) 1 s Hwf) as (scored & Hf & Hsc & Hp).
  rewrite py_lower_idem in Hf, Hsc. exists scored. split; [done|]. split; [done|].
  unfold _generate_word, mbind at 1, M_bind at 1. rewrite Hp.
  unfold py_take. destruct (sort_desc scored) as [|[w r] rest]; [reflexivity|].
  unfold py_bound. cbn [Z.ltb Z.compare].
  replace (Z.to_nat (Z.min 1 (Z.of_nat (length ((w, r) :: rest))))) with 1%nat by (cbn [length]; lia).
  reflexivity.
Qed.

(** [_generate_word] never raises; it returns [None] exactly when no
    vocabulary word starts with the lower-cased prefix. *)
Theorem _generate_word_none_iff_no_candidate st wt corpus n0 s prefix :
  NgramCharacterModel_init st wt corpus n0 = inr s ->
  exists o, _generate_word prefix s = inr (o, s) /\
    (o = None <-> forall w, In w (words s) -> startswith w (py_lower prefix) = false).
Proof.
  intros E. destruct (_generate_word_result prefix s (init_wf _ _ _ _ _ E)) as (scored & Hf & _ & Hg).
  eexists. split; [exact Hg|].
  assert (Hnil : scored = [] <-> forall w, In w (words s) -> startswith w (py_lower prefix) = false).
  { split.
    - intros -> w Hw. destruct (startswith w (py_lower prefix)) eqn:Hs; [|done].
      exfalso. assert (Hin : In w (filter (fun w => startswith w (py_lower prefix) = true) (words s))).
      { apply list_elem_of_In, list_elem_of_filter. split; [done|]. by apply list_elem_of_In. }
      rewrite <- Hf in Hin. done.
    - intros Hno. destruct scored as [|[w r] rest]; [done|]. exfalso.
      assert (Hin : In w (filter (fun w => startswith w (py_lower prefix) = true) (words s)))
        by (rewrite <- Hf; left; done).
      apply list_elem_of_In, list_elem_of_filter in Hin as [Hs Hin].
      apply list_elem_of_In, Hno in Hin. congruence. }
  rewrite <- Hnil. pose proof (sort_desc_perm scored) as Hp.
  destruct (sort_desc scored) as [|[w r] rest] eqn:Es.
  - apply Permutation_nil in Hp. done.
  - split; [done|]. intros ->. apply Permutation_sym, Permutation_nil in Hp. done.
Qed.

(** A word returned by [_generate_word] is a vocabulary word starting with
    the lower-cased prefix whose score is at least the score of every such
    word. *)
Theorem _generate_word_picks_best st wt corpus n0 s prefix w :
  NgramCharacterModel_init st wt corpus n0 = inr s ->
  _generate_word prefix s = inr (Some w, s) ->
  In w (words s) /\ startswith w (py_lower prefix) = true /\
  exists r, get_word_probability (py_lower prefix) w s = inr (r, s) /\
    forall w' r', In w' (words s) -> startswith w' (py_lower prefix) = true ->
      get_word_probability (py_lower prefix) w' s = inr (r', s) -> (r' <= r)%R.
Proof.
  intros E Hw. destruct (_generate_word_result prefix s (init_wf _ _ _ _ _ E)) as (scored & Hf & Hsc & Hg).
  rewrite Hg in Hw. pose proof (sort_desc_perm scored) as Hp. pose proof (sort_desc_descending scored) as Hd.
  destruct (sort_desc scored) as [|[w0 r] rest] eqn:Es; [discriminate|].
  injection Hw as ->.
  assert (Hin : In (w, r) scored) by (eapply Permutation_in; [exact Hp|left; done]).
  assert (Hinf : In w (filter (fun w => startswith w (py_lower prefix) = true) (words s)))
    by (rewrite <- Hf; apply in_map_iff; exists (w, r); done).
  apply list_elem_of_In, list_elem_of_filter in Hinf as [Hs Hinw].
  split; [by apply list_elem_of_In|]. split; [done|].
  exists r. split; [by apply Hsc|].
  intros w' r' Hw' Hs' Hr'.
  assert (Hinf' : In w' (map fst scored)).
  { rewrite Hf. apply list_elem_of_In, list_elem_of_filter. split; [done|]. by apply list_elem_of_In. }
  apply in_map_iff in Hinf' as ([w1 r1] & Heq & Hin1). simpl in Heq. subst w1.
  pose proof (Hsc w' r1 Hin1) as Hr1. rewrite Hr' in Hr1. injection Hr1 as <-.
  apply (Permutation_in _ (Permutation_sym Hp)) in Hin1.
  destruct Hin1 as [Heq|Hin1]; [injection Heq as _ <-; lra|].
  apply descending_head_max in Hd. rewrite Forall_forall in Hd.
  apply (Hd (w', r')). by apply list_elem_of_In.
Qed.

Lemma _generate_word_none_iff_no_candidate_witness :
  NgramCharacterModel_init sent_tokenize_plain word_tokenize_plain "ab ac" 2 = inr (built "ab ac" 2) /\
  exists o, _generate_word "A" (built "ab ac" 2) = inr (o, built "ab ac" 2) /\
    (o = None <-> forall w, In w (words (built "ab ac" 2)) -> startswith w (py_lower "A") = false).
Proof.
  assert (E : NgramCharacterModel_init sent_tokenize_plain word_tokenize_plain "ab ac" 2 = inr (built "ab ac" 2))
    by (vm_compute; reflexivity).
  split; [exact E|]. exact (_generate_word_none_iff_no_candidate _ _ _ _ _ "A" E).
Defined.


Lemma _generate_word_picks_best_witness :
  NgramCharacterModel_init sent_tokenize_plain word_tokenize_plain "ab ac" 2 = inr (built "ab ac" 2) /\
  filter (fun w => startswith w (py_lower "A") = true) (words (built "ab ac" 2)) = ["ac"%string; "ab"%string] /\
  exists w, _generate_word "A" (built "ab ac" 2) = inr (Some w, built "ab ac" 2) /\
    In w (words (built "ab ac" 2)) /\ startswith w (py_lower "A") = true /\
    exists r, get_word_probability (py_lower "A") w (built "ab ac" 2) = inr (r, built "ab ac" 2) /\
      forall w' r', In w' (words (built "ab ac" 2)) -> startswith w' (py_lower "A") = true ->
        get_word_probability (py_lower "A") w' (built "ab ac" 2) = inr (r', built "ab ac" 2) -> (r' <= r)%R.
Proof.
  assert (Hc : filter (fun w => startswith w (py_lower "A") = true) (words (built "ab ac" 2)) = ["ac"%string; "ab"%string])
    by (vm_compute; reflexivity).
  assert (G : exists w, _generate_word "A" (built "ab ac" 2) = inr (Some w, built "ab ac" 2)).
  { destruct (_generate_word_result "A" (built "ab ac" 2) (proj2 (build_built "ab ac" 2))) as (scored & Hf & _ & Hg).
    pose proof (eq_trans Hf Hc) as Hf2. clear Hf.
    generalize dependent (built "ab ac" 2). intros s _ Hg. rewrite Hg.
    pose proof (sort_desc_perm scored) as Hp.
    destruct (sort_desc scored) as [|[w r] rest].
    - apply Permutation_nil in Hp. subst scored. discriminate.
    - exists w. reflexivity. }
  assert (E : NgramCharacterModel_init sent_tokenize_plain word_tokenize_plain "ab ac" 2 = inr (built "ab ac" 2))
    by (vm_compute; reflexivity).
  split; [exact E|]. split; [exact Hc|].
  destruct G as [w G]. exists w. split; [exact G|].
  exact (_generate_word_picks_best _ _ _ _ _ "A" w E G).
Defined.

Lemma lower_letter_or_ws c :
  is_letter (ascii_lower c) || is_ws (ascii_lower c) = true ->
  ((97 <=? nat_of_ascii (ascii_lower c))%nat && (nat_of_ascii (ascii_lower c) <=? 122)%nat) || is_ws (ascii_lower c) = true.
Proof. destruct c as [[] [] [] [] [] [] [] []]; vm_compute; done. Qed.

Lemma infix_pair_cons (a b c : ascii) o :
  (exists k1 k2, (c :: o) = k1 ++ [a; b] ++ k2) -> (c = a /\ head o = Some b) \/ (exists k1 k2, o = k1 ++ [a; b] ++ k2).
Proof.
  intros (k1 & k2 & E). destruct k1 as [|x k1]; simpl in E; injection E as -> E.
  - left. subst o. done.
  - right. exists k1, k2. done.
Qed.

Lemma collapse_ws_shape b l :
  Forall (fun c => ((97 <=? nat_of_ascii c)%nat && (nat_of_ascii c <=? 122)%nat) || is_ws c = true) l ->
  Forall (fun c => (97 <= nat_of_ascii c <= 122)%nat \/ c = " "%char) (collapse_ws b l) /\
  ~ (exists k1 k2, collapse_ws b l = k1 ++ [" "%char; " "%char] ++ k2) /\
  (b = true -> head (collapse_ws b l) <> Some " "%char).
Proof.
  revert b. induction l as [|c l IH]; intros b Hl; simpl.
  - split; [constructor|]. split; [|done]. intros (k1 & k2 & E). destruct k1; discriminate.
  - apply Forall_cons in Hl as [Hc Hl]. destruct (IH true Hl) as (F1 & N1 & H1). destruct (IH false Hl) as (F2 & N2 & H2).
    destruct (is_ws c) eqn:Hw; [destruct b|].
    + split; [done|]. split; [done|]. intros _. by apply H1.
    + split; [constructor; [by right|done]|]. split; [|done].
      intros Hi. apply infix_pair_cons in Hi as [[_ Hh]|Hi]; [by apply H1 in Hh|done].
    + rewrite orb_false_r in Hc. apply andb_true_iff in Hc as [Hc1 Hc2].
      apply Nat.leb_le in Hc1. apply Nat.leb_le in Hc2.
      assert (Hsp : c <> " "%char) by (intros ->; discriminate).
      split; [constructor; [left; lia|done]|]. split.
      * intros Hi. apply infix_pair_cons in Hi as [[-> _]|Hi]; [done|done].
      * intros _ [= ->]. done.
Qed.

Lemma drop_spaces_suffix l : exists p, l = p ++ drop_spaces l.
Proof.
  induction l as [|c l IH]; simpl; [by exists []|].
  destruct (decide (c = " "%char)) as [->|]; [|by exists []].
  destruct IH as [p Hp]. exists (" "%char :: p). simpl. by f_equal.
Qed.

Lemma drop_spaces_head l : head (drop_spaces l) <> Some " "%char.
Proof.
  induction l as [|c l IH]; simpl; [done|].
  destruct (decide (c = " "%char)); [done|]. simpl. congruence.
Qed.

Lemma head_reverse_last {A} (l : list A) : head (reverse l) = last l.
Proof.
  induction l as [|x l IH] using rev_ind; [done|].
  rewrite reverse_snoc, last_app. simpl. reflexivity.
Qed.

Lemma last_reverse_head {A} (l : list A) : last (reverse l) = head l.
Proof. rewrite <- (reverse_involutive l) at 2. by rewrite head_reverse_last. Qed.

Lemma infix_reverse (a b : ascii) l :
  (exists k1 k2, (reverse l) = k1 ++ [a; b] ++ k2) -> (exists k1 k2, l = k1 ++ [b; a] ++ k2).
Proof.
  intros (k1 & k2 & E). exists (reverse k2), (reverse k1).
  rewrite <- (reverse_involutive l), E, !reverse_app. simpl. rewrite <- app_assoc. reflexivity.
Qed.

Lemma infix_app_l {A} (x p l : list A) : (exists k1 k2, l = k1 ++ x ++ k2) -> exists k1 k2, p ++ l = k1 ++ x ++ k2.
Proof. intros (k1 & k2 & ->). exists (p ++ k1), k2. by rewrite app_assoc. Qed.

Lemma last_app_suffix {A} (p l : list A) (x : A) : last l = Some x -> last (p ++ l) = Some x.
Proof.
  intros H. destruct l as [|y l _] using rev_ind; [done|].
  rewrite app_assoc, !last_app in *. done.
Qed.

(** The normalised corpus consists of lower-case letters and spaces, never two
    spaces in a row, and neither starts nor ends with a space. *)
Theorem normalize_shape corpus :
  let r := list_ascii_of_string (normalize corpus) in
  Forall (fun c => (97 <= nat_of_ascii c <= 122)%nat \/ c = " "%char) r /\
  ~ (exists k1 k2, r = k1 ++ [" "%char; " "%char] ++ k2) /\
  head r <> Some " "%char /\ last r <> Some " "%char.
Proof.
  intros r. unfold r, normalize. rewrite list_ascii_of_string_of_list_ascii. unfold strip_spaces.
  set (l := filter _ _).
  assert (Hl : Forall (fun c => ((97 <=? nat_of_ascii c)%nat && (nat_of_ascii c <=? 122)%nat) || is_ws c = true) l).
  { unfold l, py_lower. rewrite list_ascii_of_string_of_list_ascii.
    apply Forall_forall. intros c Hc. apply list_elem_of_filter in Hc as [Hk Hc].
    apply list_elem_of_In, in_map_iff in Hc as (c0 & <- & _). apply lower_letter_or_ws. by apply Is_true_true. }
  destruct (collapse_ws_shape false l Hl) as (F & N & _).
  set (o := collapse_ws false l) in *.
  destruct (drop_spaces_suffix o) as [p1 Hp1].
  set (y := drop_spaces o) in *.
  destruct (drop_spaces_suffix (reverse y)) as [p2 Hp2].
  set (z := drop_spaces (reverse y)) in *.
  assert (Fy : Forall (fun c => (97 <= nat_of_ascii c <= 122)%nat \/ c = " "%char) y)
    by (rewrite Hp1, Forall_app in F; tauto).
  assert (Fz : Forall (fun c => (97 <= nat_of_ascii c <= 122)%nat \/ c = " "%char) z).
  { assert (Fry : Forall (fun c => (97 <= nat_of_ascii c <= 122)%nat \/ c = " "%char) (reverse y))
      by (rewrite Forall_reverse; done).
    rewrite Hp2, Forall_app in Fry; tauto. }
  split; [by rewrite Forall_reverse|].
  split.
  - intros Hi. apply infix_reverse in Hi. apply N. rewrite Hp1. apply infix_app_l.
    apply infix_reverse. rewrite Hp2. by apply infix_app_l.
  - split.
    + rewrite head_reverse_last. intros Hz. apply (drop_spaces_head o). fold y.
      rewrite <- last_reverse_head. apply (last_app_suffix p2) in Hz. by rewrite <- Hp2 in Hz.
    + rewrite last_reverse_head. apply drop_spaces_head.
Qed.
